(** * offres_emploi.api: the authenticated-request lifecycle of [Api]

    A shallow embedding of [src/offres_emploi/api.py].  The client object
    and the outside world (wall clock, network, standard output) are
    threaded explicitly; Python exceptions are values of type [exn].

    Layout:
    - [Py]        the Python values and built-ins the client touches
                  (dicts, [datetime], [timedelta], [str.format]);
    - [Re]        [re.search] for the one pattern used by [Api.search];
    - [Requests]  responses, [raise_for_status], and the retry loop of the
                  HTTP library as configured by [Api.__init__];
    - [Client]    the class [Api] itself, method by method;
    - the properties of the client. *)

From Stdlib Require Import ZArith String Ascii List Lia Bool DecimalString.
Import ListNotations.

Open Scope string_scope.
Open Scope Z_scope.

Set Warnings "-register-all".

(* ================================================================== *)
(** ** Python values and built-ins *)
(* ================================================================== *)

Module Py.

(** The values that flow through the client: what [r.json()] can return
    (JSON numbers with a fractional part are left out: they are floats),
    plus [datetime] objects, which [get_token] stores inside the token
    dict.  A dict is kept as an association list in insertion order with
    distinct keys. *)
Inductive pyval : Type :=
| PNone
| PBool (b : bool)
| PInt (z : Z)
| PStr (s : string)
| PList (l : list pyval)
| PDict (d : list (string * pyval))
| PDatetime (t : Z).

Definition dict := list (string * pyval).

(** The exceptions that can leave a method of [Api]. *)
Inductive exn : Type :=
| HTTPError (msg : string)      (* requests.exceptions.HTTPError *)
| RetryError                    (* requests.exceptions.RetryError *)
| ConnectionError               (* requests.exceptions.ConnectionError and timeouts *)
| JSONDecodeError               (* raised by r.json() on a body that is not JSON *)
| KeyError (key : string)
| TypeError
| AttributeError
| OverflowError.

(** [d[k]] *)
Fixpoint dict_get (k : string) (d : dict) : option pyval :=
  match d with
  | [] => None
  | (k', v) :: d' => if String.eqb k k' then Some v else dict_get k d'
  end.

(** [d[k] = v]: an existing key keeps its place, a new key goes last. *)
Fixpoint dict_set (k : string) (v : pyval) (d : dict) : dict :=
  match d with
  | [] => [(k, v)]
  | (k', v') :: d' =>
      if String.eqb k k' then (k', v) :: d' else (k', v') :: dict_set k v d'
  end.

(** [d.update(e)] *)
Definition dict_update (d e : dict) : dict :=
  fold_left (fun acc kv => dict_set (fst kv) (snd kv) acc) e d.

(** [v[k]] for a string key [k]: only a dict can be indexed by a string. *)
Definition getitem (v : pyval) (k : string) : exn + pyval :=
  match v with
  | PDict d => match dict_get k d with
               | Some x => inr x
               | None => inl (KeyError k)
               end
  | _ => inl TypeError
  end.

(** *** datetime

    A naive [datetime] is the number of microseconds since
    [datetime.min] (0001-01-01T00:00:00); [datetime.max] is
    9999-12-31T23:59:59.999999.  A [timedelta] is a number of
    microseconds. *)
Definition datetime := Z.
Definition timedelta := Z.

Definition MAXORDINAL : Z := 3652059.
Definition US_PER_SECOND : Z := 1000000.
Definition US_PER_DAY : Z := 86400 * US_PER_SECOND.
Definition datetime_max : datetime := MAXORDINAL * US_PER_DAY - 1.

(** [datetime.timedelta(seconds=n)] for an integer [n]: the number of days
    of the normalised value must have magnitude at most 999999999. *)
Definition timedelta_of_seconds (n : Z) : exn + timedelta :=
  let days := n / 86400 in
  if (-999999999 <=? days) && (days <=? 999999999)
  then inr (n * US_PER_SECOND)
  else inl OverflowError.

(** [datetime.timedelta(seconds=v)] for the values of [pyval]: [bool] is
    a subclass of [int].  A [float], which [timedelta] takes as well, has
    no counterpart in [pyval]: the properties that rest on this function
    speak of integer arguments. *)
Definition timedelta_seconds (v : pyval) : exn + timedelta :=
  match v with
  | PInt n => timedelta_of_seconds n
  | PBool b => timedelta_of_seconds (if b then 1 else 0)
  | _ => inl TypeError
  end.

(** [t + d] on a [datetime] and a [timedelta]. *)
Definition datetime_add (t : datetime) (d : timedelta) : exn + datetime :=
  let r := t + d in
  if (0 <=? r) && (r <=? datetime_max) then inr r else inl OverflowError.

(** [t >= v] where [t] is a [datetime]. *)
Definition datetime_ge (t : datetime) (v : pyval) : exn + bool :=
  match v with
  | PDatetime u => inr (u <=? t)
  | _ => inl TypeError
  end.

(** [str(n)] for an [int]. *)
Definition str_of_int (n : Z) : string := NilZero.string_of_int (Z.to_int n).

End Py.
Export Py.

(* ================================================================== *)
(** ** [re.search] for the pattern of [Api.search] *)
(* ================================================================== *)

Module Re.

(** [\d]: header values reach the client decoded as latin-1, where the
    only decimal digits are ['0'] .. ['9']. *)
Definition is_digit (c : ascii) : bool :=
  let n := nat_of_ascii c in (48 <=? n)%nat && (n <=? 57)%nat.

(** The longest run of digits at the head of [s], and what follows. *)
Fixpoint span_digits (s : string) : string * string :=
  match s with
  | EmptyString => (EmptyString, EmptyString)
  | String c s' =>
      if is_digit c
      then let (d, r) := span_digits s' in (String c d, r)
      else (EmptyString, s)
  end.

(** [\d+] followed by a literal that is not a digit, or by the end of the
    pattern: the greedy run is the only run that can succeed, so no
    backtracking is needed. *)
Definition digits1 (s : string) : option (string * string) :=
  match span_digits s with
  | (EmptyString, _) => None
  | (d, r) => Some (d, r)
  end.

(** A literal piece of the pattern. *)
Fixpoint literal (p s : string) : option string :=
  match p with
  | EmptyString => Some s
  | String c p' =>
      match s with
      | EmptyString => None
      | String c' s' => if Ascii.eqb c c' then literal p' s' else None
      end
  end.

(** The three named groups, in the order of the pattern. *)
Record groups := {
  first_index : string;
  last_index : string;
  max_results : string
}.

(** ["offres (?P<first_index>\d+)-(?P<last_index>\d+)/(?P<max_results>\d+)"]
    matched at the head of [s]. *)
Definition match_here (s : string) : option groups :=
  match literal "offres " s with
  | None => None
  | Some s0 =>
  match digits1 s0 with
  | None => None
  | Some (a, s1) =>
  match literal "-" s1 with
  | None => None
  | Some s2 =>
  match digits1 s2 with
  | None => None
  | Some (b, s3) =>
  match literal "/" s3 with
  | None => None
  | Some s4 =>
  match digits1 s4 with
  | None => None
  | Some (c, _) =>
      Some {| first_index := a; last_index := b; max_results := c |}
  end end end end end end.

(** [re.search(pattern, s)]: the leftmost position where the pattern
    matches; [None] when there is none. *)
Fixpoint search (s : string) : option groups :=
  match match_here s with
  | Some g => Some g
  | None =>
      match s with
      | EmptyString => None
      | String _ s' => search s'
      end
  end.

(** [m.groupdict()]: every group is a [str]. *)
Definition groupdict (g : groups) : dict :=
  [ ("first_index", PStr (first_index g));
    ("last_index", PStr (last_index g));
    ("max_results", PStr (max_results g)) ].

End Re.

(* ================================================================== *)
(** ** The HTTP library as the client uses it *)
(* ================================================================== *)

Module Requests.

Inductive method := GET | POST.

(** What the client hands to the library for one logical request. *)
Record Request := {
  meth : method;
  req_url : string;
  req_headers : list (string * string);
  req_params : pyval;
  req_data : pyval;
  req_timeout : Z;
  req_proxies : pyval
}.

(** What the client reads from a response object [r]: [r.status_code],
    [r.reason], [r.url], [r.headers] and the result of [r.json()]
    ([None] when the body is not JSON).  A response is the final one of
    its exchange: redirects are followed below this level. *)
Record Response := {
  status_code : Z;
  reason : string;
  url : string;
  headers : list (string * string);
  json : option pyval
}.

(** [str.lower] on header names. *)
Definition lower_ascii (c : ascii) : ascii :=
  let n := nat_of_ascii c in
  if (65 <=? n)%nat && (n <=? 90)%nat then ascii_of_nat (n + 32) else c.

Fixpoint lower (s : string) : string :=
  match s with
  | EmptyString => EmptyString
  | String c s' => String (lower_ascii c) (lower s')
  end.

(** [r.headers.get(k)]: header names compare without case. *)
Fixpoint header_get (k : string) (h : list (string * string)) : option string :=
  match h with
  | [] => None
  | (k', v) :: h' =>
      if String.eqb (lower k) (lower k') then Some v else header_get k h'
  end.

(** [r.headers[k]]: the [KeyError] of a case-insensitive dict carries the
    lowered key. *)
Definition header_getitem (k : string) (h : list (string * string)) : exn + string :=
  match header_get k h with
  | Some v => inr v
  | None => inl (KeyError (lower k))
  end.

(** [r.raise_for_status()] *)
Definition http_error_msg (r : Response) : option string :=
  let s := status_code r in
  if (400 <=? s) && (s <? 500) then
    Some (str_of_int s ++ " Client Error: " ++ reason r ++ " for url: " ++ url r)
  else if (500 <=? s) && (s <? 600) then
    Some (str_of_int s ++ " Server Error: " ++ reason r ++ " for url: " ++ url r)
  else None.

Definition raise_for_status (r : Response) : exn + unit :=
  match http_error_msg r with
  | Some msg => inl (HTTPError msg)
  | None => inr tt
  end.

(** [r.json()] *)
Definition json_of (r : Response) : exn + pyval :=
  match json r with
  | Some v => inr v
  | None => inl JSONDecodeError
  end.

(** *** The outside world

    [clock] gives the successive readings of the wall clock, [inbox] what
    the network will do with the next physical attempts (an empty inbox
    answers nothing), [trace] what has been observed so far, oldest
    first. *)
Inductive Outcome :=
| Answer (r : Response)
| NetworkFailure.

Inductive Event :=
| Today (t : datetime)      (* a reading of datetime.datetime.today() *)
| Sent (q : Request)        (* one physical attempt *)
| Slept (seconds : Z)       (* time.sleep between attempts *)
| Printed (line : string).  (* print *)

Record World := {
  clock : nat -> datetime;
  reads : nat;
  inbox : list Outcome;
  trace : list Event
}.

Definition emit (e : Event) (w : World) : World :=
  {| clock := clock w; reads := reads w; inbox := inbox w;
     trace := (trace w ++ [e])%list |}.

(** [datetime.datetime.today()] *)
Definition today (w : World) : datetime * World :=
  let t := clock w (reads w) in
  (t, emit (Today t)
        {| clock := clock w; reads := S (reads w); inbox := inbox w;
           trace := trace w |}).

(** One physical attempt. *)
Definition transmit (q : Request) (w : World) : Outcome * World :=
  let w' := emit (Sent q) w in
  match inbox w with
  | [] => (NetworkFailure, w')
  | o :: rest =>
      (o, {| clock := clock w'; reads := reads w'; inbox := rest;
             trace := trace w' |})
  end.

(** *** Retry *)

(** Modelled from the spec: the retry policy of a session.  The loop that
    applies it is not in [src/]: it belongs to the HTTP library, and
    [Api.__init__] only passes it these four arguments.  A response whose
    status is in [status_forcelist] is retried, every retry counts
    against [total], the pause between attempts is the policy's own
    exponential back-off, and a [Retry-After] header is looked at only
    when [respect_retry_after_header] is set. *)
Record Retry := {
  total : nat;
  backoff_factor : Z;
  status_forcelist : list Z;
  respect_retry_after_header : bool
}.

Definition BACKOFF_MAX : Z := 120.
Definition RETRY_AFTER_STATUS_CODES : list Z := [413; 429; 503].

(** [GET] is idempotent and may be retried, [POST] is not. *)
Definition is_method_retryable (m : method) : bool :=
  match m with GET => true | POST => false end.

Definition has_retry_after (r : Response) : bool :=
  match header_get "Retry-After" (headers r) with
  | Some EmptyString | None => false
  | Some _ => true
  end.

(** Modelled from the spec: is the response one to retry, with [left]
    retries remaining? *)
Definition is_retry (cfg : Retry) (left : nat) (m : method) (r : Response) : bool :=
  if negb (is_method_retryable m) then false
  else if existsb (Z.eqb (status_code r)) (status_forcelist cfg) then true
  else negb (Nat.eqb left 0) && respect_retry_after_header cfg
       && has_retry_after r
       && existsb (Z.eqb (status_code r)) RETRY_AFTER_STATUS_CODES.

(** Modelled from the spec: the back-off after [n] consecutive failed
    attempts, exponential in [n] and without jitter. *)
Definition get_backoff_time (cfg : Retry) (n : nat) : Z :=
  if (n <=? 1)%nat then 0
  else Z.min BACKOFF_MAX (backoff_factor cfg * 2 ^ Z.of_nat (n - 1)).

(** A [Retry-After] given as a number of seconds (the date form is not
    modelled and reads as absent). *)
Definition get_retry_after (r : Response) : option Z :=
  match header_get "Retry-After" (headers r) with
  | Some v =>
      match NilEmpty.uint_of_string v with
      | Some u => Some (Z.of_uint u)
      | None => None
      end
  | None => None
  end.

Definition time_sleep (seconds : Z) (w : World) : World :=
  if 0 <? seconds then emit (Slept seconds) w else w.

(** Modelled from the spec: the pause before the next attempt; [resp] is
    the response being retried, if there is one. *)
Definition sleep (cfg : Retry) (n : nat) (resp : option Response) (w : World) : World :=
  let after :=
    if respect_retry_after_header cfg
    then match resp with Some r => get_retry_after r | None => None end
    else None in
  match after with
  | Some s => if 0 <? s then time_sleep s w
              else time_sleep (get_backoff_time cfg n) w
  | None => time_sleep (get_backoff_time cfg n) w
  end.

(** Modelled from the spec: the attempts of one logical request, where
    [left] retries remain and [failed] attempts have failed so far.
    Running out of retries on a forced status raises [RetryError]; on a
    network failure, [ConnectionError]. *)
Fixpoint urlopen (cfg : Retry) (left failed : nat) (q : Request) (w : World)
  : (exn + Response) * World :=
  let (o, w1) := transmit q w in
  match o with
  | NetworkFailure =>
      match left with
      | O => (inl ConnectionError, w1)
      | S left' =>
          urlopen cfg left' (S failed) q (sleep cfg (S failed) None w1)
      end
  | Answer r =>
      if is_retry cfg left (meth q) r then
        match left with
        | O => (inl RetryError, w1)
        | S left' =>
            urlopen cfg left' (S failed) q (sleep cfg (S failed) (Some r) w1)
        end
      else (inr r, w1)
  end.

(** A request through a session whose adapter carries [cfg]. *)
Definition send (cfg : Retry) (q : Request) (w : World) : (exn + Response) * World :=
  urlopen cfg (total cfg) 0 q w.

(** The adapter of a plain [requests.post]: no retry at all. *)
Definition DEFAULT_RETRIES : Retry :=
  {| total := 0; backoff_factor := 0; status_forcelist := [];
     respect_retry_after_header := true |}.

End Requests.
Export Requests.

(* ================================================================== *)
(** ** The client: class [Api] *)
(* ================================================================== *)

Module Client.

(* CONSTANTS *)
Definition ENDPOINT_ACCESS_TOKEN : string :=
  "https://entreprise.pole-emploi.fr/connexion/oauth2/access_token".
Definition OFFRES_DEMPLOI_V2_BASE : string :=
  "https://api.emploi-store.fr/partenaire/offresdemploi/v2".
Definition REFERENTIEL_ENDPOINT : string := OFFRES_DEMPLOI_V2_BASE ++ "/referentiel".
Definition SEARCH_ENDPOINT : string := OFFRES_DEMPLOI_V2_BASE ++ "/offres/search".

(** The fields of an [Api] object.  [token = None] stands for an object
    that has no attribute [token] yet; [session] is the retry policy of
    the adapter mounted on [self.session]. *)
Record Api := {
  client_id : string;
  client_secret : string;
  verbose : bool;
  proxies : pyval;
  timeout : Z;
  session : Retry;
  token : option pyval
}.

(** [Api.__init__] *)
Definition __init__ (client_id client_secret : string) (verbose : bool)
  (proxies : pyval) : Api :=
  {| client_id := client_id;
     client_secret := client_secret;
     verbose := verbose;
     proxies := proxies;
     timeout := 60;
     session :=
       {| total := 3;
          backoff_factor := 1;
          status_forcelist := [502; 429];
          respect_retry_after_header := false |};
     token := None |}.

(** The state a method runs in: the object and the world. *)
Record Sys := {
  self : Api;
  world : World
}.

(** A method body: it ends with a value or an exception, and in both
    cases leaves a state behind. *)
Definition M (A : Type) : Type := Sys -> (exn + A) * Sys.

Definition ret {A} (x : A) : M A := fun s => (inr x, s).

Definition raise {A} (e : exn) : M A := fun s => (inl e, s).

Definition bind {A B} (c : M A) (k : A -> M B) : M B :=
  fun s =>
    match c s with
    | (inr x, s') => k x s'
    | (inl e, s') => (inl e, s')
    end.

Notation "x <- c ;; k" := (bind c (fun x => k))
  (at level 61, c at next level, right associativity).
Notation "c ;; k" := (bind c (fun _ => k))
  (at level 61, right associativity).

(** An expression that may raise but does not touch the state. *)
Definition lift {A} (r : exn + A) : M A := fun s => (r, s).

(** A step of the world. *)
Definition io {A} (f : World -> A * World) : M A :=
  fun s => let (x, w) := f (world s) in (inr x, {| self := self s; world := w |}).

(** A step of the world that may raise. *)
Definition io_exn {A} (f : World -> (exn + A) * World) : M A :=
  fun s => let (x, w) := f (world s) in (x, {| self := self s; world := w |}).

Definition get_self : M Api := fun s => (inr (self s), s).

(** [print(line)] *)
Definition print (line : string) : M unit :=
  io (fun w => (tt, emit (Printed line) w)).

(** [self.token]: [AttributeError] while the attribute does not exist. *)
Definition self_token : M pyval :=
  a <- get_self ;;
  match token a with
  | Some t => ret t
  | None => raise AttributeError
  end.

(** [self.token = t] *)
Definition set_token (t : pyval) : M unit :=
  fun s =>
    let a := self s in
    (inr tt,
     {| self := {| client_id := client_id a; client_secret := client_secret a;
                   verbose := verbose a; proxies := proxies a;
                   timeout := timeout a; session := session a;
                   token := Some t |};
        world := world s |}).

(** [v[k] = x] for a string key [k] *)
Definition setitem (v : pyval) (k : string) (x : pyval) : exn + pyval :=
  match v with
  | PDict d => inr (PDict (dict_set k x d))
  | _ => inl TypeError
  end.

(** ["\n"] *)
Definition newline : string := String "010" EmptyString.

(** [s + v] where [s] is a [str] *)
Definition str_add (s : string) (v : pyval) : exn + string :=
  match v with
  | PStr t => inr (s ++ t)
  | _ => inl TypeError
  end.

Section Methods.

(** [repr(v)] is left to the interpreter. *)
Variable repr : pyval -> string.

(** [str(v)], which is also what ["{}".format(v)] puts in place of the
    braces. *)
Definition str (v : pyval) : string :=
  match v with
  | PStr s => s
  | _ => repr v
  end.

(** [Api.get_token] *)
Definition get_token : M pyval :=
  a <- get_self ;;
  let data :=
    PDict [ ("grant_type", PStr "client_credentials");
            ("client_id", PStr (client_id a));
            ("client_secret", PStr (client_secret a));
            ("scope", PStr ("api_offresdemploiv2 o2dsoffre application_"
                            ++ client_id a)) ] in
  let headers := [ ("content-type", "application/x-www-form-urlencoded") ] in
  let params := PDict [ ("realm", PStr "/partenaire") ] in
  current_time <- io today ;;
  r <- io_exn (send DEFAULT_RETRIES
                 {| meth := POST;
                    req_url := ENDPOINT_ACCESS_TOKEN;
                    req_headers := headers;
                    req_params := params;
                    req_data := data;
                    req_timeout := timeout a;
                    req_proxies := proxies a |}) ;;
  match raise_for_status r with
  | inl (HTTPError error) =>
      if status_code r =? 400 then
        body <- lift (json_of r) ;;
        let complete_message := error ++ newline ++ str body in
        raise (HTTPError complete_message)
      else raise (HTTPError error)
  | inl e => raise e
  | inr _ =>
      token <- lift (json_of r) ;;
      expires_in <- lift (getitem token "expires_in") ;;
      delta <- lift (timedelta_seconds expires_in) ;;
      expires_at <- lift (datetime_add current_time delta) ;;
      token <- lift (setitem token "expires_at" (PDatetime expires_at)) ;;
      set_token token ;;
      ret token
  end.

(** [Api.is_expired] *)
Definition is_expired : M bool :=
  now <- io today ;;
  t <- self_token ;;
  expires_at <- lift (getitem t "expires_at") ;;
  lift (datetime_ge now expires_at).

(** [Api.get_headers] *)
Definition get_headers : M (list (string * string)) :=
  a <- get_self ;;
  (match token a with
   | None =>
       (if verbose a
        then print "Token has not been requested yet. Requesting token"
        else ret tt) ;;
       get_token ;; ret tt
   | Some _ =>
       expired <- is_expired ;;
       if expired : bool then
         (if verbose a
          then print "Token is expired. Requesting new token"
          else ret tt) ;;
         get_token ;; ret tt
       else ret tt
   end) ;;
  t <- self_token ;;
  access_token <- lift (getitem t "access_token") ;;
  ret [ ("Authorization", "Bearer " ++ str access_token) ].

(** [Api.referentiel] *)
Definition referentiel (referentiel : string) : M pyval :=
  a <- get_self ;;
  let referentiel_endpoint := REFERENTIEL_ENDPOINT ++ "/" ++ referentiel in
  headers <- get_headers ;;
  r <- io_exn (send (session a)
                 {| meth := GET;
                    req_url := referentiel_endpoint;
                    req_headers := headers;
                    req_params := PNone;
                    req_data := PNone;
                    req_timeout := timeout a;
                    req_proxies := proxies a |}) ;;
  match raise_for_status r with
  | inl e => raise e
  | inr _ => lift (json_of r)
  end.

(** [Api.search]; the result [PNone] is the [None] of a call that falls
    off the end of the method. *)
Definition search (params : pyval) (silent_http_errors : bool) : M pyval :=
  a <- get_self ;;
  (if verbose a
   then print ("Making request with params " ++ str params)
   else ret tt) ;;
  headers <- get_headers ;;
  r <- io_exn (send (session a)
                 {| meth := GET;
                    req_url := SEARCH_ENDPOINT;
                    req_headers := headers;
                    req_params := params;
                    req_data := PNone;
                    req_timeout := timeout a;
                    req_proxies := proxies a |}) ;;
  match raise_for_status r with
  | inl (HTTPError error) =>
      if status_code r =? 400 then
        body <- lift (json_of r) ;;
        message <- lift (getitem body "message") ;;
        complete_message <- lift (str_add (error ++ newline) message) ;;
        if silent_http_errors
        then print complete_message ;; ret PNone
        else raise (HTTPError complete_message)
      else
        if silent_http_errors
        then print error ;; ret PNone
        else raise (HTTPError error)
  | inl e => raise e
  | inr _ =>
      content_range <- lift (header_getitem "Content-Range" (Requests.headers r)) ;;
      match Re.search content_range with
      | None => raise AttributeError
      | Some m =>
          let found_range := Re.groupdict m in
          out <- lift (json_of r) ;;
          match out with
          | PDict d =>
              ret (PDict (dict_update d [ ("Content-Range", PDict found_range) ]))
          | _ => raise AttributeError
          end
      end
  end.

End Methods.

End Client.
Export Client.

(* ================================================================== *)
(** ** Vocabulary of the properties *)
(* ================================================================== *)

(** What was added to the trace between the worlds [w] and [w'], and what
    a call added. *)
Definition added (w w' : World) : list Event :=
  skipn (length (trace w)) (trace w').

Definition new_events (s s' : Sys) : list Event :=
  added (world s) (world s').


Fixpoint pauses (evs : list Event) : list Z :=
  match evs with
  | [] => []
  | Slept d :: evs' => d :: pauses evs'
  | _ :: evs' => pauses evs'
  end.


(** The request [get_token] posts for the object [a]. *)
Definition token_request (a : Api) : Request :=
  {| meth := POST;
     req_url := ENDPOINT_ACCESS_TOKEN;
     req_headers := [ ("content-type", "application/x-www-form-urlencoded") ];
     req_params := PDict [ ("realm", PStr "/partenaire") ];
     req_data :=
       PDict [ ("grant_type", PStr "client_credentials");
               ("client_id", PStr (client_id a));
               ("client_secret", PStr (client_secret a));
               ("scope", PStr ("api_offresdemploiv2 o2dsoffre application_"
                               ++ client_id a)) ];
     req_timeout := timeout a;
     req_proxies := proxies a |}.

(** The number of seconds an [expires_in] value stands for. *)
Definition seconds_of (v : pyval) : option Z :=
  match v with
  | PInt n => Some n
  | PBool b => Some (if b then 1 else 0)
  | _ => None
  end.

(** The wall-clock reading the next call of [today] returns. *)
Definition next_reading (w : World) : datetime := clock w (reads w).

(** The public methods, and a client driven through a sequence of calls;
    a caller that catches the exception of one call goes on with the
    next. *)
Inductive Call :=
| CallGetToken
| CallIsExpired
| CallGetHeaders
| CallReferentiel (referentiel : string)
| CallSearch (params : pyval) (silent_http_errors : bool).

Definition call (repr : pyval -> string) (c : Call) (s : Sys) : Sys :=
  match c with
  | CallGetToken => snd (get_token repr s)
  | CallIsExpired => snd (is_expired s)
  | CallGetHeaders => snd (get_headers repr s)
  | CallReferentiel n => snd (referentiel repr n s)
  | CallSearch p q => snd (search repr p q s)
  end.

Fixpoint run (repr : pyval -> string) (cs : list Call) (s : Sys) : Sys :=
  match cs with
  | [] => s
  | c :: cs' => run repr cs' (call repr c s)
  end.

(** The part of [search] up to the response: the optional log line, the
    headers, the exchange. *)
Definition search_exchange (repr : pyval -> string) (params : pyval) : M Response :=
  a <- get_self ;;
  (if verbose a
   then print ("Making request with params " ++ str repr params)
   else ret tt) ;;
  headers <- get_headers repr ;;
  io_exn (send (session a)
            {| meth := GET;
               req_url := SEARCH_ENDPOINT;
               req_headers := headers;
               req_params := params;
               req_data := PNone;
               req_timeout := timeout a;
               req_proxies := proxies a |}).

(** The rest of [search]: what it does with the response [r]. *)
Definition search_outcome (silent_http_errors : bool) (r : Response) : M pyval :=
  match raise_for_status r with
  | inl (HTTPError error) =>
      if status_code r =? 400 then
        body <- lift (json_of r) ;;
        message <- lift (getitem body "message") ;;
        complete_message <- lift (str_add (error ++ newline) message) ;;
        if silent_http_errors
        then print complete_message ;; ret PNone
        else raise (HTTPError complete_message)
      else
        if silent_http_errors
        then print error ;; ret PNone
        else raise (HTTPError error)
  | inl e => raise e
  | inr _ =>
      content_range <- lift (header_getitem "Content-Range" (Requests.headers r)) ;;
      match Re.search content_range with
      | None => raise AttributeError
      | Some m =>
          let found_range := Re.groupdict m in
          out <- lift (json_of r) ;;
          match out with
          | PDict d =>
              ret (PDict (dict_update d [ ("Content-Range", PDict found_range) ]))
          | _ => raise AttributeError
          end
      end
  end.

(** The header [get_headers] builds from the token [t]. *)
Definition bearer (repr : pyval -> string) (t : pyval)
  (h : list (string * string)) : Prop :=
  exists access_token,
    getitem t "access_token" = inr access_token /\
    h = [ ("Authorization", "Bearer " ++ str repr access_token) ].

(** The token [t] against a reading [now] of the clock. *)
Definition live (t : pyval) (now : datetime) : Prop :=
  exists expires_at,
    getitem t "expires_at" = inr (PDatetime expires_at) /\ now < expires_at.

Definition stale (t : pyval) (now : datetime) : Prop :=
  exists expires_at,
    getitem t "expires_at" = inr (PDatetime expires_at) /\ expires_at <= now.

(** Where the token behind a header can come from, for a call that starts
    in [s]: the cache, when the check finds it live; or a [get_token] that
    the call itself ran on this object, because no token was cached or the
    check found the cached one stale. *)
Definition cached_and_live (s : Sys) (t : pyval) : Prop :=
  token (self s) = Some t /\ live t (next_reading (world s)).

Definition fetched_in_call (repr : pyval -> string) (s : Sys) (t : pyval) : Prop :=
  (token (self s) = None \/
   exists old, token (self s) = Some old /\ stale old (next_reading (world s))) /\
  exists s0 s1,
    get_token repr s0 = (inr t, s1) /\
    self s0 = self s /\
    inbox (world s0) = inbox (world s) /\
    clock (world s0) = clock (world s).

Definition justified (repr : pyval -> string) (s : Sys)
  (h : list (string * string)) : Prop :=
  exists t, bearer repr t h /\ (cached_and_live s t \/ fetched_in_call repr s t).

(** The world [w'] is [w] with events added that all satisfy [P]. *)
Definition grows_by (P : Event -> Prop) (w w' : World) : Prop :=
  exists evs, trace w' = (trace w ++ evs)%list /\ Forall P evs.

(** Events of a token fetch only: no request but a POST goes out. *)
Definition post_only (e : Event) : Prop :=
  forall q, e = Sent q -> meth q = POST.

(** Events of the attempts of the request [q]. *)
Definition attempt_of (q : Request) (e : Event) : Prop :=
  e = Sent q \/ exists d, e = Slept d.

(** Every GET among the events carries a justified header. *)
Definition sends_justified (repr : pyval -> string) (s : Sys) (e : Event) : Prop :=
  forall q, e = Sent q -> meth q = GET -> justified repr s (req_headers q).

(** The calls that go through the session. *)
Definition through_session (c : Call) : Prop :=
  match c with
  | CallReferentiel _ | CallSearch _ _ => True
  | _ => False
  end.

(** How [search] surfaces an error text: printed under
    [silent_http_errors], raised otherwise. *)
Definition surfaced (silent_http_errors : bool) (text : string) (s : Sys)
  : (exn + pyval) * Sys :=
  if silent_http_errors
  then (inr PNone, {| self := self s; world := emit (Printed text) (world s) |})
  else (inl (HTTPError text), s).

(** A string of decimal digits. *)
Fixpoint all_digits (s : string) : bool :=
  match s with
  | EmptyString => true
  | String c s' => Re.is_digit c && all_digits s'
  end.

Definition number (s : string) : Prop :=
  s <> EmptyString /\ all_digits s = true.

(** The text [v] holds the pattern of [search] somewhere:
    ["offres <first>-<last>/<max>"], each of the three a number. *)
Definition has_range (v : string) : Prop :=
  exists pre first last max post,
    v = pre ++ "offres " ++ first ++ "-" ++ last ++ "/" ++ max ++ post /\
    number first /\ number last /\ number max.

(** The text [v] is ["offres <first>-<last>/<max>"] and no more. *)
Definition exact_range (v : string) : Prop :=
  exists first last max,
    v = "offres " ++ first ++ "-" ++ last ++ "/" ++ max /\
    number first /\ number last /\ number max.

(** The settings of a client: everything but the token. *)
Definition same_settings (a b : Api) : Prop :=
  client_id a = client_id b /\ client_secret a = client_secret b /\
  verbose a = verbose b /\ proxies a = proxies b /\
  timeout a = timeout b /\ session a = session b.

(** A cached token, when there is one, is a dict whose [expires_at] is a
    [datetime]. *)
Definition token_shaped (a : Api) : Prop :=
  match token a with
  | None => True
  | Some t => exists e, getitem t "expires_at" = inr (PDatetime e)
  end.

(** From [a] to [a']: the settings stay and the shape of the token is
    kept. *)
Definition keeps (a a' : Api) : Prop :=
  same_settings a' a /\ (token_shaped a -> token_shaped a').

(** The statuses the client's session retries. *)
Definition forced (r : Response) : Prop :=
  status_code r = 429 \/ status_code r = 502.

(* ================================================================== *)
(** ** Vocabulary of the further properties *)
(* ================================================================== *)

(** The part of [referentiel] up to the response. *)
Definition referentiel_exchange (repr : pyval -> string) (referentiel : string)
  : M Response :=
  a <- get_self ;;
  headers <- get_headers repr ;;
  io_exn (send (session a)
            {| meth := GET;
               req_url := REFERENTIEL_ENDPOINT ++ "/" ++ referentiel;
               req_headers := headers;
               req_params := PNone;
               req_data := PNone;
               req_timeout := timeout a;
               req_proxies := proxies a |}).

(** The requests among some events. *)
Fixpoint requests (evs : list Event) : list Request :=
  match evs with
  | [] => []
  | Sent q :: evs' => q :: requests evs'
  | _ :: evs' => requests evs'
  end.
(** The GET that [search] sends for the object [a], the parameters
    [params] and the headers [h]; the one that [referentiel] sends. *)
Definition search_request (a : Api) (params : pyval)
  (h : list (string * string)) : Request :=
  {| meth := GET;
     req_url := SEARCH_ENDPOINT;
     req_headers := h;
     req_params := params;
     req_data := PNone;
     req_timeout := timeout a;
     req_proxies := proxies a |}.

Definition referentiel_request (a : Api) (referentiel : string)
  (h : list (string * string)) : Request :=
  {| meth := GET;
     req_url := REFERENTIEL_ENDPOINT ++ "/" ++ referentiel;
     req_headers := h;
     req_params := PNone;
     req_data := PNone;
     req_timeout := timeout a;
     req_proxies := proxies a |}.

(** What a call through the session may send: at most one token request,
    then the same GET up to [n] times. *)
Definition session_traffic (a : Api) (mk : list (string * string) -> Request)
  (n : nat) (qs : list Request) : Prop :=
  exists pre h k,
    qs = (pre ++ repeat (mk h) k)%list /\
    (pre = [] \/ pre = [token_request a]) /\
    (k <= n)%nat.
(** The state in which [search] asks for the headers: after its log
    line, when the client is verbose. *)
Definition announced (repr : pyval -> string) (params : pyval) (s : Sys) : Sys :=
  if verbose (self s)
  then {| self := self s;
          world := emit (Printed ("Making request with params " ++ str repr params))
                     (world s) |}
  else s.

(** The answers of the token endpoint that [get_token], reading the clock
    at [t0], turns into a token. *)
Definition grantable (t0 : datetime) (r : Response) : Prop :=
  http_error_msg r = None /\
  exists body expires_in n,
    json r = Some body /\
    getitem body "expires_in" = inr expires_in /\
    seconds_of expires_in = Some n /\
    -999999999 <= n / 86400 <= 999999999 /\
    0 <= t0 + n * 1000000 <= datetime_max.

(* ================================================================== *)
(** ** The calendar behind [datetime] *)
(* ================================================================== *)

Module Calendar.

(** *** The fields of a [datetime]

    The proleptic Gregorian calendar of [datetime]: day 1 is
    0001-01-01. *)
Definition DI400Y : Z := 146097.
Definition DI100Y : Z := 36524.
Definition DI4Y : Z := 1461.

Definition DAYS_IN_MONTH (month : Z) : Z :=
  nth (Z.to_nat month) [0; 31; 28; 31; 30; 31; 30; 31; 31; 30; 31; 30; 31] 0.

Definition DAYS_BEFORE_MONTH (month : Z) : Z :=
  nth (Z.to_nat month)
    [0; 0; 31; 59; 90; 120; 151; 181; 212; 243; 273; 304; 334] 0.

(** The month and the day of the [n]-th day of a year, counted from 0. *)
Definition month_day (leapyear : bool) (n : Z) : Z * Z :=
  let month := Z.shiftr (n + 50) 5 in
  let preceding :=
    DAYS_BEFORE_MONTH month + (if (2 <? month) && leapyear then 1 else 0) in
  if n <? preceding then
    let month := month - 1 in
    let preceding :=
      preceding
      - (DAYS_IN_MONTH month + (if (month =? 2) && leapyear then 1 else 0)) in
    (month, n - preceding + 1)
  else (month, n - preceding + 1).

(** Year, month and day of the day of ordinal [n]. *)
Definition ord2ymd (n : Z) : Z * Z * Z :=
  let n := n - 1 in
  let n400 := n / DI400Y in
  let n := n mod DI400Y in
  let n100 := n / DI100Y in
  let n := n mod DI100Y in
  let n4 := n / DI4Y in
  let n := n mod DI4Y in
  let n1 := n / 365 in
  let n := n mod 365 in
  let year := n400 * 400 + 1 + n100 * 100 + n4 * 4 + n1 in
  if (n1 =? 4) || (n100 =? 4) then (year - 1, 12, 31)
  else
    let leapyear := (n1 =? 3) && (negb (n4 =? 24) || (n100 =? 3)) in
    let (month, day) := month_day leapyear n in
    (year, month, day).

Record fields := {
  year : Z; month : Z; day : Z;
  hour : Z; minute : Z; second : Z; microsecond : Z
}.

Definition fields_of (t : datetime) : fields :=
  let '(y, m, d) := ord2ymd (t / US_PER_DAY + 1) in
  let rest := t mod US_PER_DAY in
  {| year := y; month := m; day := d;
     hour := rest / (3600 * US_PER_SECOND);
     minute := (rest / (60 * US_PER_SECOND)) mod 60;
     second := (rest / US_PER_SECOND) mod 60;
     microsecond := rest mod US_PER_SECOND |}.

(** A field on two digits. *)
Definition two_digits (n : Z) : string :=
  if n <? 10 then "0" ++ str_of_int n else str_of_int n.

(** [dt.strftime(format)] for the directives that [dt_to_str_iso] uses; how [%Y]
    writes a year is [year_text]: below 1000 it depends on the platform. *)
Fixpoint strftime (year_text : Z -> string) (f : fields) (format : string)
  : string :=
  match format with
  | EmptyString => EmptyString
  | String "%" (String c rest) =>
      (if Ascii.eqb c "Y" then year_text (year f)
       else if Ascii.eqb c "m" then two_digits (month f)
       else if Ascii.eqb c "d" then two_digits (day f)
       else if Ascii.eqb c "H" then two_digits (hour f)
       else if Ascii.eqb c "M" then two_digits (minute f)
       else if Ascii.eqb c "S" then two_digits (second f)
       else String "%" (String c EmptyString))
      ++ strftime year_text f rest
  | String c rest => String c (strftime year_text f rest)
  end.

End Calendar.

(* ================================================================== *)
(** ** The helpers of [offres_emploi.utils] *)
(* ================================================================== *)

Module Utils.

Inductive value_error := ValueError (msg : string).

Definition iso_format : string := "%Y-%m-%dT%H:%M:%SZ".

(** [dt_to_str_iso]: only a [datetime] is an instance of
    [datetime.datetime]. *)
Definition dt_to_str_iso (year_text : Z -> string) (dt : pyval)
  : value_error + string :=
  match dt with
  | PDatetime t => inr (Calendar.strftime year_text (Calendar.fields_of t) iso_format)
  | _ => inl (ValueError "Arg 'dt' should be of class 'datetime.datetime'")
  end.


(** [for x in v]: a list gives its items, a dict its keys, a text its
    characters; nothing else here can be iterated. *)
Definition iterate (v : pyval) : exn + list pyval :=
  match v with
  | PList l => inr l
  | PDict d => inr (map (fun kv => PStr (fst kv)) d)
  | PStr s => inr (map (fun c => PStr (String c EmptyString)) (list_ascii_of_string s))
  | _ => inl TypeError
  end.

(** Can [v] be the key of a dict?  Lists and dicts cannot. *)
Definition hashable (v : pyval) : bool :=
  match v with
  | PList _ | PDict _ => false
  | _ => true
  end.

(** A list comprehension [[f(x) for x in l]]: the items in order, up to
    the first one that raises. *)
Fixpoint comprehension {A B : Type} (f : A -> exn + B) (l : list A)
  : exn + list B :=
  match l with
  | [] => inr []
  | x :: l' =>
      match f x with
      | inl e => inl e
      | inr y =>
          match comprehension f l' with
          | inl e => inl e
          | inr ys => inr (y :: ys)
          end
      end
  end.

(** [{x["filtre"]: x["agregation"]}], a dict of one entry, as that
    entry. *)
Definition one_entry (x : pyval) : exn + (pyval * pyval) :=
  match getitem x "filtre" with
  | inl e => inl e
  | inr key =>
      match getitem x "agregation" with
      | inl e => inl e
      | inr value => if hashable key then inr (key, value) else inl TypeError
      end
  end.

(** [dict(filtre=key, valeur_possible=x["valeurPossible"],
    nb_resultats=x["nbResultats"])] *)
Definition record (key x : pyval) : exn + pyval :=
  match getitem x "valeurPossible" with
  | inl e => inl e
  | inr valeur_possible =>
      match getitem x "nbResultats" with
      | inl e => inl e
      | inr nb_resultats =>
          inr (PDict [ ("filtre", key);
                       ("valeur_possible", valeur_possible);
                       ("nb_resultats", nb_resultats) ])
      end
  end.

(** [flat_dic] for one [dic] of [dics] *)
Definition flat_dic (dic : pyval * pyval) : exn + list pyval :=
  let (key, value) := dic in
  match iterate value with
  | inl e => inl e
  | inr xs => comprehension (record key) xs
  end.

(** The loop [for dic in dics: ... l.extend(flat_dic)], from the list [l]
    built so far. *)
Fixpoint extend_all (dics : list (pyval * pyval)) (l : list pyval)
  : exn + list pyval :=
  match dics with
  | [] => inr l
  | dic :: dics' =>
      match flat_dic dic with
      | inl e => inl e
      | inr rows => extend_all dics' (l ++ rows)
      end
  end.

(** [pd.DataFrame(l)]: the frame that the list [l] of records is handed
    to.  What the frame makes of the records (its columns, their types,
    the value it puts for a null) is the library's and is not modelled:
    a frame is known here by the records it was built from. *)
Inductive frame := DataFrame (l : list pyval).

(** [filters_to_df] *)
Definition filters_to_df (filters : pyval) : exn + frame :=
  match iterate filters with
  | inl e => inl e
  | inr xs =>
      match comprehension one_entry xs with
      | inl e => inl e
      | inr dics =>
          match extend_all dics [] with
          | inl e => inl e
          | inr l => inr (DataFrame l)
          end
      end
  end.

End Utils.


(** The records that one filter [x] gives. *)
Definition filter_rows (x : pyval) (rows : list pyval) : Prop :=
  exists key value entries,
    getitem x "filtre" = inr key /\
    Utils.hashable key = true /\
    getitem x "agregation" = inr value /\
    Utils.iterate value = inr entries /\
    Forall2 (fun entry row =>
               exists valeur_possible nb_resultats,
                 getitem entry "valeurPossible" = inr valeur_possible /\
                 getitem entry "nbResultats" = inr nb_resultats /\
                 row = PDict [ ("filtre", key);
                               ("valeur_possible", valeur_possible);
                               ("nb_resultats", nb_resultats) ])
            entries rows.

(** A filter that can be read as far as its name and its aggregation,
    whatever the aggregation holds. *)
Definition has_name_and_aggregation (x : pyval) : Prop :=
  exists dic, Utils.one_entry x = inr dic.

(** A text of [k] decimal digits. *)
Definition digits (k : nat) (s : string) : Prop :=
  String.length s = k /\ all_digits s = true.

(** The first instant of the year 1000. *)
Definition YEAR_1000 : datetime := 364877 * US_PER_DAY.

(** The same as a test. *)
Definition digitsb (k : nat) (s : string) : bool :=
  Nat.eqb (String.length s) k && all_digits s.

(* ================================================================== *)
(** ** Sample data for the worked examples *)
(* ================================================================== *)

Module Samples.

(** A rendering in the manner of [repr], exact on the values used below
    (no quote, backslash or control character inside a string). *)
Fixpoint sample_repr (v : pyval) : string :=
  match v with
  | PNone => "None"
  | PBool b => if b then "True" else "False"
  | PInt n => str_of_int n
  | PStr s => "'" ++ s ++ "'"
  | PList l =>
      "[" ++ (fix items (l : list pyval) : string :=
                match l with
                | [] => ""
                | x :: l' =>
                    match l' with
                    | [] => sample_repr x
                    | _ => sample_repr x ++ ", " ++ items l'
                    end
                end) l ++ "]"
  | PDict d =>
      "{" ++ (fix items (d : list (string * pyval)) : string :=
                match d with
                | [] => ""
                | (k, x) :: d' =>
                    match d' with
                    | [] => "'" ++ k ++ "': " ++ sample_repr x
                    | _ => "'" ++ k ++ "': " ++ sample_repr x ++ ", " ++ items d'
                    end
                end) d ++ "}"
  | PDatetime t => "datetime.datetime(" ++ str_of_int t ++ ")"
  end.

(** A wall clock that starts at [t0] and shows one second more at each
    reading. *)
Definition t0 : datetime := 63742000000000000.
Definition wall (n : nat) : datetime := t0 + 1000000 * Z.of_nat n.

Definition world_with (answers : list Outcome) : World :=
  {| clock := wall; reads := 0; inbox := answers; trace := [] |}.

Definition new_client : Api := __init__ "id" "secret" false PNone.

Definition start (answers : list Outcome) : Sys :=
  {| self := new_client; world := world_with answers |}.

Definition response (status : Z) (reason : string) (url : string)
  (headers : list (string * string)) (json : option pyval) : Response :=
  {| status_code := status; reason := reason; url := url;
     headers := headers; json := json |}.

(** The token endpoint grants a token for 1500 seconds. *)
Definition token_granted : Response :=
  response 200 "OK" ENDPOINT_ACCESS_TOKEN []
    (Some (PDict [ ("access_token", PStr "abc");
                   ("token_type", PStr "Bearer");
                   ("expires_in", PInt 1500) ])).

(** The token endpoint rejects the credentials, with a JSON body. *)
Definition token_refused (status : Z) (reason : string) : Response :=
  response status reason ENDPOINT_ACCESS_TOKEN []
    (Some (PDict [ ("error", PStr "invalid_client") ])).

(** A client that already holds the token of [token_granted], fetched at
    [t0]. *)
Definition cached_token : pyval :=
  PDict [ ("access_token", PStr "abc");
          ("token_type", PStr "Bearer");
          ("expires_in", PInt 1500);
          ("expires_at", PDatetime (t0 + 1500 * 1000000)) ].

Definition client_with_token : Api :=
  {| client_id := "id"; client_secret := "secret"; verbose := false;
     proxies := PNone; timeout := 60; session := session new_client;
     token := Some cached_token |}.

Definition resume (answers : list Outcome) : Sys :=
  {| self := client_with_token; world := world_with answers |}.

(** Answers of the search endpoint. *)
Definition offers_page : Response :=
  response 206 "Partial Content" SEARCH_ENDPOINT
    [ ("Content-Range", "offres 0-19/134") ]
    (Some (PDict [ ("resultats", PList []) ])).

Definition search_refused (status : Z) (reason : string) (json : option pyval)
  : Response :=
  response status reason SEARCH_ENDPOINT [ ("Retry-After", "30") ] json.

Definition invalid_filter : pyval := PDict [ ("message", PStr "invalid filter") ].

(** An answer of the reference-data endpoint. *)
Definition themes : Response :=
  response 200 "OK" (REFERENTIEL_ENDPOINT ++ "/themes") []
    (Some (PList [ PDict [ ("code", PStr "01"); ("libelle", PStr "Agriculture") ] ])).

End Samples.

(* ================================================================== *)
(** ** Sample data for the further examples *)
(* ================================================================== *)

Module MoreSamples.

(** A grant without [access_token], and a grant for no time at all. *)
Definition token_without_access : Response :=
  Samples.response 200 "OK" ENDPOINT_ACCESS_TOKEN []
    (Some (PDict [ ("token_type", PStr "Bearer"); ("expires_in", PInt 1500) ])).

Definition token_for_no_time : Response :=
  Samples.response 200 "OK" ENDPOINT_ACCESS_TOKEN []
    (Some (PDict [ ("access_token", PStr "abc"); ("expires_in", PInt 0) ])).

(** The reference-data endpoint refuses with status 400 and a message. *)
Definition themes_refused : Response :=
  Samples.response 400 "Bad Request" (REFERENTIEL_ENDPOINT ++ "/themes") []
    (Some Samples.invalid_filter).

(** Two filters as [search] returns them under [filtresPossibles], the
    second with an empty aggregation. *)
Definition entry (valeur : string) (nb : Z) : pyval :=
  PDict [ ("valeurPossible", PStr valeur); ("nbResultats", PInt nb) ].

Definition contract_filter : pyval :=
  PDict [ ("filtre", PStr "typeContrat");
          ("agregation", PList [ entry "CDI" 10; entry "CDD" 5 ]) ].

Definition experience_filter : pyval :=
  PDict [ ("filtre", PStr "experience"); ("agregation", PList []) ].

(** A filter whose aggregation is not a list, and one without a name. *)
Definition broken_aggregation : pyval :=
  PDict [ ("filtre", PStr "qualification"); ("agregation", PInt 3) ].

Definition nameless_filter : pyval :=
  PDict [ ("agregation", PList [ entry "CDI" 10 ]) ].

(** 2020-11-26T16:07:41, and a quarter of a second later. *)
Definition afternoon : datetime := Samples.t0 + 3661 * 1000000.
Definition afternoon_and_a_bit : datetime := afternoon + 250000.

End MoreSamples.

(* ================================================================== *)
(** ** Reasoning about method bodies *)
(* ================================================================== *)

Arguments get_token : simpl never.
Arguments get_headers : simpl never.

Ltac unfold_m :=
  unfold bind, ret, raise, lift, io, io_exn, get_self, set_token, print,
    self_token in *.

(** Case analysis on the innermost scrutinee first. *)
Ltac break_match :=
  match goal with
  | |- context [match ?x with _ => _ end] =>
      lazymatch x with
      | context [match _ with _ => _ end] => fail
      | _ => destruct x eqn:?
      end
  end.

Ltac break_match_in H :=
  match type of H with
  | context [match ?x with _ => _ end] =>
      lazymatch x with
      | context [match _ with _ => _ end] => fail
      | _ => destruct x eqn:?
      end
  end.

Ltac pair_inv H := inversion H; subst; clear H.

Lemma dict_get_set : forall k v d, dict_get k (dict_set k v d) = Some v.
Proof.
  intros k v d. induction d as [|[k' v'] d IH]; simpl.
  - now rewrite String.eqb_refl.
  - destruct (String.eqb k k') eqn:E; simpl; rewrite E; auto.
Qed.

Lemma dict_get_set_other : forall k k' v d,
  k <> k' -> dict_get k (dict_set k' v d) = dict_get k d.
Proof.
  intros k k' v d Hne. induction d as [|[k0 v0] d IH]; simpl.
  - apply String.eqb_neq in Hne. now rewrite Hne.
  - destruct (String.eqb k' k0) eqn:E; simpl.
    + apply String.eqb_eq in E. subst k0.
      apply String.eqb_neq in Hne. now rewrite Hne.
    + now rewrite IH.
Qed.

(** A plain [requests.post] makes one attempt. *)
Lemma send_default : forall q w,
  send DEFAULT_RETRIES q w =
  match transmit q w with
  | (Answer r, w1) => (inr r, w1)
  | (NetworkFailure, w1) => (inl ConnectionError, w1)
  end.
Proof.
  intros q w. unfold send; simpl.
  destruct (transmit q w) as [[r|] w1]; [|reflexivity].
  unfold is_retry. destruct (is_method_retryable (meth q)); reflexivity.
Qed.

Lemma raise_for_status_inl : forall r e,
  raise_for_status r = inl e ->
  exists msg, e = HTTPError msg /\ http_error_msg r = Some msg.
Proof.
  unfold raise_for_status. intros r e H.
  destruct (http_error_msg r) as [msg|]; inversion H. eauto.
Qed.

Lemma raise_for_status_inr : forall r u,
  raise_for_status r = inr u -> http_error_msg r = None.
Proof.
  unfold raise_for_status. intros r u H.
  destruct (http_error_msg r); [discriminate|reflexivity].
Qed.

Lemma json_of_inr : forall r v, json_of r = inr v -> json r = Some v.
Proof.
  unfold json_of. intros r v H. destruct (json r); inversion H; reflexivity.
Qed.

Lemma timedelta_seconds_inr : forall v d,
  timedelta_seconds v = inr d ->
  exists n, seconds_of v = Some n /\ d = n * 1000000.
Proof.
  assert (Hn : forall n d, timedelta_of_seconds n = inr d -> d = n * 1000000).
  { unfold timedelta_of_seconds. intros n d H.
    destruct (_ && _); inversion H; reflexivity. }
  intros v d H. destruct v; simpl in H; try discriminate;
    apply Hn in H; simpl; eauto.
Qed.

Lemma datetime_add_inr : forall t d r, datetime_add t d = inr r -> r = t + d.
Proof.
  unfold datetime_add. intros t d r H.
  destruct (_ && _); inversion H; reflexivity.
Qed.

Lemma setitem_getitem : forall v k x v',
  setitem v k x = inr v' -> getitem v' k = inr x.
Proof.
  intros v k x v' H. destruct v; simpl in H; try discriminate.
  inversion H; subst. simpl. now rewrite dict_get_set.
Qed.

(* ================================================================== *)
(** ** The token: [get_token] *)
(* ================================================================== *)

Section TokenProperties.

Variable repr : pyval -> string.

(** C9.  A call of [get_token] that raises leaves the object as it was,
    the [token] attribute included (absent stays absent, a previous token
    stays in place); a call that returns a token has stored that very
    token. *)
Theorem get_token_cache : forall s,
  match get_token repr s with
  | (inl _, s') => self s' = self s
  | (inr tok, s') => token (self s') = Some tok
  end.
Proof.
  intros s. unfold get_token. unfold_m. simpl. rewrite send_default.
  unfold transmit. simpl.
  repeat (break_match; simpl; auto).
Qed.

(** C2.  When [get_token] returns a token, the clock was read once, before
    the POST went out, and the token's [expires_at] is that reading plus
    the [expires_in] of the response, counted in seconds; the token
    returned is the one stored. *)
Theorem get_token_expires_at : forall s tok s',
  get_token repr s = (inr tok, s') ->
  exists r body expires_in n,
    let t0 := next_reading (world s) in
    trace (world s') =
      (trace (world s) ++ [Today t0; Sent (token_request (self s))])%list /\
    inbox (world s) = Answer r :: inbox (world s') /\
    json r = Some body /\
    getitem body "expires_in" = inr expires_in /\
    seconds_of expires_in = Some n /\
    getitem tok "expires_at" = inr (PDatetime (t0 + n * 1000000)) /\
    token (self s') = Some tok.
Proof.
  intros s tok s' H. unfold get_token in H. unfold_m. simpl in H.
  rewrite send_default in H. unfold transmit in H. simpl in H.
  repeat (break_match_in H; simpl in H; try discriminate).
  pair_inv H; simpl.
  match goal with
  | Hd : timedelta_seconds _ = inr _ |- _ =>
      apply timedelta_seconds_inr in Hd; destruct Hd as (n & Hn & ->)
  end.
  match goal with
  | Ha : datetime_add _ _ = inr _ |- _ => apply datetime_add_inr in Ha; subst
  end.
  exists r, p, p0, n. unfold next_reading.
  rewrite <- app_assoc. simpl.
  repeat split; eauto using json_of_inr, setitem_getitem.
Qed.

(** C7, as the code has it.  When the token endpoint answers with an HTTP
    error status: on status 400 with a JSON body the error raised carries
    the HTTP error text, a line break and the body; on every other error
    status (401, 403, 404, the 5xx, ...) the HTTP error text alone. *)
Theorem get_token_http_error : forall s r rest error,
  inbox (world s) = Answer r :: rest ->
  http_error_msg r = Some error ->
  (status_code r = 400 ->
   forall body, json r = Some body ->
     fst (get_token repr s) = inl (HTTPError (error ++ newline ++ str repr body)))
  /\
  (status_code r <> 400 ->
     fst (get_token repr s) = inl (HTTPError error)).
Proof.
  intros s r rest error Hin Herr.
  assert (E : forall k,
    fst (get_token repr s) =
    fst ((if status_code r =? 400
          then body <- lift (json_of r) ;;
               raise (HTTPError (error ++ newline ++ str repr body))
          else raise (HTTPError error)) k) ).
  { intros k. unfold get_token. unfold_m. simpl. rewrite send_default.
    unfold transmit. simpl. rewrite Hin. simpl.
    unfold raise_for_status. rewrite Herr.
    destruct (status_code r =? 400); simpl; [|reflexivity].
    destruct (json_of r); reflexivity. }
  split.
  - intros H400 body Hbody. rewrite (E s).
    apply Z.eqb_eq in H400. rewrite H400. unfold_m.
    unfold json_of. rewrite Hbody. reflexivity.
  - intros Hne. rewrite (E s).
    apply Z.eqb_neq in Hne. rewrite Hne. reflexivity.
Qed.

End TokenProperties.


(* ================================================================== *)
(** ** Traces *)
(* ================================================================== *)

Lemma grows_refl : forall P w, grows_by P w w.
Proof. intros. exists []. split; [now rewrite app_nil_r | constructor]. Qed.

Lemma grows_trans : forall P w1 w2 w3,
  grows_by P w1 w2 -> grows_by P w2 w3 -> grows_by P w1 w3.
Proof.
  intros P w1 w2 w3 (e1 & H1 & F1) (e2 & H2 & F2).
  exists (e1 ++ e2)%list. split.
  - now rewrite H2, H1, app_assoc.
  - apply Forall_app; auto.
Qed.

Lemma grows_weaken : forall (P Q : Event -> Prop) w w',
  (forall e, P e -> Q e) -> grows_by P w w' -> grows_by Q w w'.
Proof.
  intros P Q w w' HPQ (evs & H & F). exists evs. split; auto.
  eapply Forall_impl; eauto.
Qed.

Lemma grows_emit : forall (P : Event -> Prop) e w, P e -> grows_by P w (emit e w).
Proof. intros. exists [e]. split; [reflexivity | auto]. Qed.

Lemma grows_new_events : forall P s s',
  grows_by P (world s) (world s') -> Forall P (new_events s s').
Proof.
  intros P s s' (evs & H & F). unfold new_events, added. rewrite H.
  rewrite skipn_app, skipn_all, Nat.sub_diag. simpl. exact F.
Qed.

Lemma grows_transmit : forall q w o w',
  transmit q w = (o, w') -> grows_by (attempt_of q) w w'.
Proof.
  unfold transmit. intros q w o w' H.
  destruct (inbox w); pair_inv H;
    (exists [Sent q]; split; [reflexivity | repeat constructor]).
Qed.

Lemma grows_sleep : forall q cfg n resp w, grows_by (attempt_of q) w (sleep cfg n resp w).
Proof.
  intros. unfold sleep, time_sleep.
  repeat break_match; try apply grows_refl; apply grows_emit; right; eauto.
Qed.

Lemma grows_urlopen : forall cfg q left failed w res w',
  urlopen cfg left failed q w = (res, w') -> grows_by (attempt_of q) w w'.
Proof.
  intros cfg q left. induction left as [|left IH]; intros failed w res w' H;
    simpl in H; destruct (transmit q w) as [o w1] eqn:Ht;
    apply grows_transmit in Ht.
  - destruct o as [r|]; [destruct (is_retry _ _ _ _)|]; pair_inv H; auto.
  - destruct o as [r|]; [destruct (is_retry _ _ _ _)|].
    + apply IH in H. eapply grows_trans; [exact Ht|].
      eapply grows_trans; [apply grows_sleep | exact H].
    + pair_inv H; auto.
    + apply IH in H. eapply grows_trans; [exact Ht|].
      eapply grows_trans; [apply grows_sleep | exact H].
Qed.

(* ================================================================== *)
(** ** The headers: [get_headers] and the calls through the session *)
(* ================================================================== *)

Section HeaderProperties.

Variable repr : pyval -> string.

Lemma get_token_stores : forall s tok s',
  get_token repr s = (inr tok, s') -> token (self s') = Some tok.
Proof.
  intros s tok s' H. unfold get_token in H. unfold_m. simpl in H.
  rewrite send_default in H. unfold transmit in H. simpl in H.
  repeat (break_match_in H; simpl in H; try discriminate).
  pair_inv H. reflexivity.
Qed.

Lemma get_token_grows : forall s res s',
  get_token repr s = (res, s') -> grows_by post_only (world s) (world s').
Proof.
  intros s res s' H. unfold get_token in H. unfold_m. simpl in H.
  rewrite send_default in H.
  match type of H with context [transmit ?q ?w] =>
    destruct (transmit q w) as [o w1] eqn:Ht end.
  apply grows_transmit in Ht.
  assert (G : grows_by post_only (world s) w1).
  { eapply grows_trans.
    - apply (grows_emit post_only (Today (clock (world s) (reads (world s))))).
      intros q Hq. discriminate.
    - eapply grows_weaken; [|exact Ht].
      intros e [-> | (d & ->)] q Hq; inversion Hq; subst; reflexivity. }
  clear Ht.
  repeat (break_match_in H; simpl in H); pair_inv H; simpl; exact G.
Qed.

Lemma datetime_ge_inr : forall now v b,
  datetime_ge now v = inr b -> exists e, v = PDatetime e /\ b = (e <=? now).
Proof.
  intros now v b H. destruct v; simpl in H; try discriminate.
  inversion H. eauto.
Qed.

Lemma get_headers_origin : forall s h s1,
  get_headers repr s = (inr h, s1) -> justified repr s h.
Proof.
  intros s h s1 H. unfold get_headers, is_expired in H. do 2 unfold_m.
  destruct (token (self s)) as [old|] eqn:Htok.
  - simpl in H. rewrite Htok in H.
    repeat (break_match_in H; simpl in H; try discriminate).
    all: pair_inv H.
    all: match goal with
         | Hge : datetime_ge _ _ = inr _ |- _ =>
             apply datetime_ge_inr in Hge; destruct Hge as (e & -> & Hle);
             symmetry in Hle
         end.
    1, 2: lazymatch goal with
          | Hg : get_token _ _ = (inr ?t, _), Ht : token (self _) = Some ?t' |- _ =>
              pose proof (get_token_stores _ _ _ Hg) as Hst;
              rewrite Hst in Ht; inversion Ht; subst t';
              exists t; split;
              [ eexists; split; [eassumption | reflexivity]
              | right; split;
                [ right; exists old; split; [assumption|];
                  exists e; split; [assumption | apply Z.leb_le; exact Hle]
                | do 2 eexists; split; [exact Hg | repeat split] ] ]
          end.
    simpl in *. rewrite Htok in *.
    match goal with Ht : Some _ = Some _ |- _ => inversion Ht; subst end.
    exists old. split.
    + eexists; split; [eassumption | reflexivity].
    + left. split; [assumption|]. exists e. split; [assumption|].
      apply Z.leb_gt. exact Hle.
  - simpl in H. repeat (break_match_in H; simpl in H; try discriminate).
    all: pair_inv H.
    all: lazymatch goal with
          | Hg : get_token _ _ = (inr ?t, _), Ht : token (self _) = Some ?t' |- _ =>
              pose proof (get_token_stores _ _ _ Hg) as Hst;
              rewrite Hst in Ht; inversion Ht; subst t';
              exists t; split;
              [ eexists; split; [eassumption | reflexivity]
              | right; split;
                [ left; exact Htok
                | do 2 eexists; split; [exact Hg | repeat split] ] ]
          end.
Qed.

Lemma get_headers_grows : forall s res s1,
  get_headers repr s = (res, s1) -> grows_by post_only (world s) (world s1).
Proof.
  intros s res s1 H. unfold get_headers, is_expired in H. do 2 unfold_m.
  destruct (token (self s)) as [old|] eqn:Htok; simpl in H;
    [rewrite Htok in H|];
    repeat (break_match_in H; simpl in H; try discriminate);
    pair_inv H; simpl;
    try match goal with
        | Hg : get_token _ _ = _ |- _ =>
            apply get_token_grows in Hg; destruct Hg as (evs & Htr & F);
            simpl in Htr
        end;
    unfold grows_by; rewrite ?Htr; simpl; rewrite <- ?app_assoc;
    (eexists; split; [reflexivity|]);
    simpl; repeat (apply Forall_cons; [intros q Hq; discriminate|]);
    solve [assumption | constructor].
Qed.


Lemma justified_same : forall s s' h,
  self s' = self s ->
  next_reading (world s') = next_reading (world s) ->
  inbox (world s') = inbox (world s) ->
  clock (world s') = clock (world s) ->
  justified repr s' h -> justified repr s h.
Proof.
  intros s s' h Hs Hn Hi Hc (t & Hb & Ht). exists t. split; [exact Hb|].
  unfold cached_and_live, fetched_in_call in *.
  rewrite Hs, Hn, Hi, Hc in Ht. exact Ht.
Qed.

Lemma search_eq : forall p b s,
  search repr p b s = bind (search_exchange repr p) (search_outcome b) s.
Proof.
  intros p b s. unfold search, search_exchange, search_outcome. unfold_m.
  simpl. destruct (verbose (self s)); simpl;
    match goal with |- context [get_headers repr ?x] =>
      destruct (get_headers repr x) as [[e|h] s1] end; simpl; try reflexivity;
    match goal with |- context [send ?c ?q ?w] =>
      destruct (send c q w) as [[e|r] w1] end; reflexivity.
Qed.

Lemma headers_grow_justified : forall s s_pre res s',
  grows_by (sends_justified repr s) (world s) (world s_pre) ->
  get_headers repr s_pre = (res, s') ->
  grows_by (sends_justified repr s) (world s) (world s').
Proof.
  intros s s_pre res s' Hpre Hgh.
  eapply grows_trans; [exact Hpre|].
  apply get_headers_grows in Hgh.
  eapply grows_weaken; [|exact Hgh].
  intros ev Hev q Hq Hget. rewrite (Hev q Hq) in Hget. discriminate.
Qed.

Lemma headers_then_send_grows : forall s s_pre h s' cfg q x w,
  self s_pre = self s ->
  next_reading (world s_pre) = next_reading (world s) ->
  inbox (world s_pre) = inbox (world s) ->
  clock (world s_pre) = clock (world s) ->
  grows_by (sends_justified repr s) (world s) (world s_pre) ->
  get_headers repr s_pre = (inr h, s') ->
  req_headers q = h ->
  send cfg q (world s') = (x, w) ->
  grows_by (sends_justified repr s) (world s) w.
Proof.
  intros s s_pre h s' cfg q x w Hs Hn Hi Hc Hpre Hgh Hq Hsend.
  eapply grows_trans; [eapply headers_grow_justified; eauto|].
  apply grows_urlopen in Hsend.
  eapply grows_weaken; [|exact Hsend].
  intros ev [-> | (d & ->)] q' Hq' Hget; [|discriminate].
  inversion Hq'; subst q'. rewrite Hq.
  eapply justified_same; eauto using get_headers_origin.
Qed.

Lemma search_exchange_grows : forall p s res s1,
  search_exchange repr p s = (res, s1) ->
  grows_by (sends_justified repr s) (world s) (world s1).
Proof.
  intros p s res s1 H. unfold search_exchange in H. unfold_m. simpl in H.
  destruct (verbose (self s)); simpl in H;
    match type of H with context [get_headers repr ?x] =>
      assert (Hpre : grows_by (sends_justified repr s) (world s) (world x))
        by (first [apply grows_refl
                  | apply grows_emit; intros q Hq; discriminate]);
      destruct (get_headers repr x) as [[e|h] s'] eqn:Hgh
    end;
    try (pair_inv H; eapply headers_grow_justified; eauto; fail);
    match type of H with context [send ?c ?q ?w] =>
      destruct (send c q w) as [x w1] eqn:Hsend
    end;
    pair_inv H; simpl;
    eapply headers_then_send_grows with (6 := Hgh) (8 := Hsend);
    solve [reflexivity | exact Hpre].
Qed.

Lemma search_outcome_grows : forall b r s res s',
  search_outcome b r s = (res, s') ->
  grows_by (fun e => exists l, e = Printed l) (world s) (world s').
Proof.
  intros b r s res s' H. unfold search_outcome in H. unfold_m.
  repeat (break_match_in H; simpl in H); pair_inv H;
    solve [apply grows_refl | apply grows_emit; eauto].
Qed.

Lemma search_grows : forall p b s res s',
  search repr p b s = (res, s') ->
  grows_by (sends_justified repr s) (world s) (world s').
Proof.
  intros p b s res s' H. rewrite search_eq in H. unfold bind in H.
  destruct (search_exchange repr p s) as [[e|r] s1] eqn:Hx.
  - pair_inv H. eapply search_exchange_grows; eauto.
  - eapply grows_trans; [eapply search_exchange_grows; eauto|].
    apply search_outcome_grows in H.
    eapply grows_weaken; [|exact H].
    intros ev (l & ->) q Hq. discriminate.
Qed.

Lemma referentiel_grows : forall n s res s',
  referentiel repr n s = (res, s') ->
  grows_by (sends_justified repr s) (world s) (world s').
Proof.
  intros n s res s' H. unfold referentiel in H. unfold_m. simpl in H.
  destruct (get_headers repr s) as [[e|h] s1] eqn:Hgh.
  - pair_inv H. eapply headers_grow_justified; eauto. apply grows_refl.
  - match type of H with context [send ?c ?q ?w] =>
      destruct (send c q w) as [x w1] eqn:Hsend
    end.
    assert (G : grows_by (sends_justified repr s) (world s) w1).
    { eapply headers_then_send_grows with (6 := Hgh) (8 := Hsend);
        solve [reflexivity | apply grows_refl]. }
    repeat (break_match_in H; simpl in H); pair_inv H; exact G.
Qed.

(** C1.  After any sequence of calls on a client, a call of [search] or
    [referentiel] sends a GET only with the [Authorization] header that
    [get_headers] built from a token that is either the cached one, found
    live by the check ([now < expires_at]), or one that [get_token]
    fetched within this call, because no token was cached or the check
    found the cached one stale ([now >= expires_at]).  No GET goes out
    with a token the check found stale. *)
Theorem no_stale_token : forall cs s0 c q,
  let s := run repr cs s0 in
  through_session c ->
  In (Sent q) (new_events s (call repr c s)) ->
  meth q = GET ->
  justified repr s (req_headers q).
Proof.
  intros cs s0 c q s Hc Hin Hget.
  assert (G : grows_by (sends_justified repr s) (world s) (world (call repr c s))).
  { destruct c; simpl in Hc; try contradiction; simpl.
    - destruct (referentiel repr referentiel0 s) as [res s'] eqn:E.
      eapply referentiel_grows; eauto.
    - destruct (search repr params silent_http_errors s) as [res s'] eqn:E.
      eapply search_grows; eauto. }
  apply grows_new_events in G.
  rewrite Forall_forall in G. exact (G _ Hin q eq_refl Hget).
Qed.
End HeaderProperties.

(* ================================================================== *)
(** ** The retry policy of the session *)
(* ================================================================== *)



Lemma added_app : forall w w' evs,
  trace w' = (trace w ++ evs)%list -> added w w' = evs.
Proof.
  intros w w' evs H. unfold added. rewrite H.
  rewrite skipn_app, skipn_all, Nat.sub_diag. reflexivity.
Qed.

Lemma transmit_trace : forall q w,
  trace (snd (transmit q w)) = (trace w ++ [Sent q])%list.
Proof. intros q w. unfold transmit. destruct (inbox w); reflexivity. Qed.

Lemma transmit_cons : forall q w o rest,
  inbox w = o :: rest ->
  fst (transmit q w) = o /\ inbox (snd (transmit q w)) = rest.
Proof. intros q w o rest H. unfold transmit. rewrite H. split; reflexivity. Qed.


Lemma time_sleep_trace : forall d w,
  trace (time_sleep d w) = (trace w ++ (if 0 <? d then [Slept d] else []))%list.
Proof.
  intros. unfold time_sleep. destruct (0 <? d); simpl; auto.
  now rewrite app_nil_r.
Qed.



Lemma sleep_is_time_sleep : forall cfg n resp w,
  exists d, sleep cfg n resp w = time_sleep d w.
Proof.
  intros. unfold sleep. repeat break_match; eexists; reflexivity.
Qed.





Lemma is_retry_session : forall cid sec v p q left r,
  meth q = GET ->
  is_retry (session (__init__ cid sec v p)) left (meth q) r = true <-> forced r.
Proof.
  intros cid sec v p q left r Hq. rewrite Hq. unfold is_retry, forced. simpl.
  destruct (status_code r =? 502) eqn:E1; simpl.
  - apply Z.eqb_eq in E1. intuition.
  - destruct (status_code r =? 429) eqn:E2; simpl.
    + apply Z.eqb_eq in E2. intuition.
    + apply Z.eqb_neq in E1. apply Z.eqb_neq in E2.
      rewrite Bool.andb_false_r. simpl. intuition; discriminate.
Qed.

(** An answer that comes out of the attempts is not one of those the
    policy retries. *)
Lemma urlopen_unforced : forall cfg q,
  (forall left r, is_retry cfg left (meth q) r = true <-> forced r) ->
  forall left failed w r w',
    urlopen cfg left failed q w = (inr r, w') -> ~ forced r.
Proof.
  intros cfg q Hretry left. induction left as [|left IH];
    intros failed w r w' H; simpl in H;
    destruct (transmit q w) as [[r0|] w1]; try discriminate.
  - destruct (is_retry cfg 0 (meth q) r0) eqn:E; [discriminate|].
    inversion H; subst. intros Hf. apply Hretry with (left := 0%nat) in Hf.
    congruence.
  - destruct (is_retry cfg (S left) (meth q) r0) eqn:E.
    + eapply IH; eassumption.
    + inversion H; subst. intros Hf. apply Hretry with (left := S left) in Hf.
      congruence.
  - eapply IH; eassumption.
Qed.

Lemma send_unforced : forall cid sec v px q w r w',
  meth q = GET ->
  send (session (__init__ cid sec v px)) q w = (inr r, w') -> ~ forced r.
Proof.
  intros cid sec v px q w r w' Hq H. unfold send in H.
  eapply urlopen_unforced; [|exact H].
  intros left r0. apply is_retry_session. exact Hq.
Qed.



(* ================================================================== *)
(** ** The pattern of the [Content-Range] header *)
(* ================================================================== *)

Lemma literal_app : forall p s, Re.literal p (p ++ s) = Some s.
Proof.
  induction p as [|c p IH]; intros s; simpl; auto.
  now rewrite Ascii.eqb_refl.
Qed.

Lemma span_digits_all : forall a,
  all_digits a = true -> Re.span_digits a = (a, EmptyString).
Proof.
  induction a as [|c a IH]; simpl; intros H; auto.
  apply andb_prop in H. destruct H as [Hc Ha].
  rewrite Hc, (IH Ha). reflexivity.
Qed.

Lemma span_digits_stop : forall a c r,
  all_digits a = true -> Re.is_digit c = false ->
  Re.span_digits (a ++ String c r) = (a, String c r).
Proof.
  induction a as [|x a IH]; simpl; intros c r H Hc.
  - now rewrite Hc.
  - apply andb_prop in H. destruct H as [Hx Ha].
    rewrite Hx, (IH c r Ha Hc). reflexivity.
Qed.

Lemma digits1_stop : forall a c r,
  number a -> Re.is_digit c = false ->
  Re.digits1 (a ++ String c r) = Some (a, String c r).
Proof.
  intros a c r [Hne Ha] Hc. unfold Re.digits1.
  rewrite span_digits_stop by assumption.
  destruct a; [contradiction | reflexivity].
Qed.

Lemma digits1_all : forall a,
  number a -> Re.digits1 a = Some (a, EmptyString).
Proof.
  intros a [Hne Ha]. unfold Re.digits1. rewrite span_digits_all by assumption.
  destruct a; [contradiction | reflexivity].
Qed.

Lemma search_here : forall s g,
  Re.match_here s = Some g -> Re.search s = Some g.
Proof.
  intros s g H.
  assert (E : Re.search s =
              match Re.match_here s with
              | Some g => Some g
              | None => match s with
                        | EmptyString => None
                        | String _ s' => Re.search s'
                        end
              end) by (destruct s; reflexivity).
  rewrite E, H. reflexivity.
Qed.

Lemma search_well_formed : forall a b c,
  number a -> number b -> number c ->
  Re.search ("offres " ++ a ++ "-" ++ b ++ "/" ++ c) =
  Some {| Re.first_index := a; Re.last_index := b; Re.max_results := c |}.
Proof.
  intros a b c Ha Hb Hc.
  assert (M : Re.match_here ("offres " ++ a ++ "-" ++ b ++ "/" ++ c) =
              Some {| Re.first_index := a; Re.last_index := b;
                      Re.max_results := c |}).
  { assert (L1 : Re.literal "offres " ("offres " ++ a ++ "-" ++ b ++ "/" ++ c)
                 = Some (a ++ "-" ++ b ++ "/" ++ c)) by apply literal_app.
    assert (D1 : Re.digits1 (a ++ "-" ++ b ++ "/" ++ c)
                 = Some (a, "-" ++ b ++ "/" ++ c))
      by (apply (digits1_stop a "-"); auto).
    assert (L2 : Re.literal "-" ("-" ++ b ++ "/" ++ c) = Some (b ++ "/" ++ c))
      by apply literal_app.
    assert (D2 : Re.digits1 (b ++ "/" ++ c) = Some (b, "/" ++ c))
      by (apply (digits1_stop b "/"); auto).
    assert (L3 : Re.literal "/" ("/" ++ c) = Some c) by apply literal_app.
    pose proof (digits1_all c Hc) as D3.
    unfold Re.match_here.
    rewrite L1; cbv beta iota. rewrite D1; cbv beta iota.
    rewrite L2; cbv beta iota. rewrite D2; cbv beta iota.
    rewrite L3; cbv beta iota. rewrite D3. reflexivity. }
  apply search_here. exact M.
Qed.

Lemma literal_inv : forall p s s', Re.literal p s = Some s' -> s = p ++ s'.
Proof.
  induction p as [|c p IH]; simpl; intros s s' H.
  - now inversion H.
  - destruct s as [|c' s]; [discriminate|].
    destruct (Ascii.eqb c c') eqn:E; [|discriminate].
    apply Ascii.eqb_eq in E. subst c'. f_equal. now apply IH.
Qed.

Lemma span_digits_inv : forall s d r,
  Re.span_digits s = (d, r) -> s = d ++ r /\ all_digits d = true.
Proof.
  induction s as [|c s IH]; simpl; intros d r H.
  - inversion H. auto.
  - destruct (Re.is_digit c) eqn:Ec.
    + destruct (Re.span_digits s) as [d' r'] eqn:E. inversion H; subst.
      destruct (IH d' r eq_refl) as [-> Hd]. simpl. rewrite Ec, Hd. auto.
    + inversion H; subst. auto.
Qed.

Lemma digits1_inv : forall s d r,
  Re.digits1 s = Some (d, r) -> s = d ++ r /\ number d.
Proof.
  unfold Re.digits1. intros s d r H.
  destruct (Re.span_digits s) as [d' r'] eqn:E.
  destruct d'; [discriminate|]. inversion H; subst.
  apply span_digits_inv in E. destruct E as [-> Hd].
  split; [reflexivity|]. split; [discriminate | exact Hd].
Qed.

Lemma match_here_inv : forall s g,
  Re.match_here s = Some g ->
  exists post,
    s = "offres " ++ Re.first_index g ++ "-" ++ Re.last_index g ++ "/"
        ++ Re.max_results g ++ post /\
    number (Re.first_index g) /\ number (Re.last_index g) /\
    number (Re.max_results g).
Proof.
  unfold Re.match_here. intros s g H.
  destruct (Re.literal "offres " s) as [s0|] eqn:L1; [|discriminate].
  destruct (Re.digits1 s0) as [[a s1]|] eqn:D1; [|discriminate].
  destruct (Re.literal "-" s1) as [s2|] eqn:L2; [|discriminate].
  destruct (Re.digits1 s2) as [[b s3]|] eqn:D2; [|discriminate].
  destruct (Re.literal "/" s3) as [s4|] eqn:L3; [|discriminate].
  destruct (Re.digits1 s4) as [[c s5]|] eqn:D3; [|discriminate].
  inversion H; subst g; clear H. cbn [Re.first_index Re.last_index Re.max_results].
  apply literal_inv in L1, L2, L3.
  apply digits1_inv in D1, D2, D3.
  destruct D1 as [E1 Ha], D2 as [E2 Hb], D3 as [E3 Hc].
  exists s5. subst. auto.
Qed.

Lemma search_inv : forall s g, Re.search s = Some g -> has_range s.
Proof.
  induction s as [|c s IH]; intros g H.
  - discriminate H.
  - assert (E : Re.search (String c s) =
              match Re.match_here (String c s) with
              | Some g => Some g
              | None => Re.search s
              end) by reflexivity.
    rewrite E in H. destruct (Re.match_here (String c s)) eqn:M.
    + inversion H; subst. apply match_here_inv in M.
      destruct M as (post & M & Ha & Hb & Hc).
      exists "", (Re.first_index g), (Re.last_index g), (Re.max_results g), post. auto.
    + destruct (IH g H) as (pre & a & b & m & post & -> & Ha & Hb & Hm).
      exists (String c pre), a, b, m, post. auto.
Qed.

Lemma span_digits_app : forall c post,
  all_digits c = true ->
  Re.span_digits (c ++ post) =
  (c ++ fst (Re.span_digits post), snd (Re.span_digits post)).
Proof.
  induction c as [|x c IH]; simpl; intros post H.
  - destruct (Re.span_digits post); reflexivity.
  - apply andb_prop in H. destruct H as [Hx Hc].
    rewrite Hx, (IH post Hc). reflexivity.
Qed.

(** [Re.search] finds a match exactly in the texts that hold the
    pattern. *)
Lemma search_complete : forall s, has_range s -> Re.search s <> None.
Proof.
  intros s (pre & a & b & c & post & -> & Ha & Hb & Hc).
  induction pre as [|x pre IH].
  - assert (M : Re.match_here ("offres " ++ a ++ "-" ++ b ++ "/" ++ c ++ post) <> None).
    { assert (L1 : Re.literal "offres " ("offres " ++ a ++ "-" ++ b ++ "/" ++ c ++ post)
                 = Some (a ++ "-" ++ b ++ "/" ++ c ++ post)) by apply literal_app.
      assert (D1 : Re.digits1 (a ++ "-" ++ b ++ "/" ++ c ++ post)
                 = Some (a, "-" ++ b ++ "/" ++ c ++ post))
        by (apply (digits1_stop a "-"); auto).
      assert (L2 : Re.literal "-" ("-" ++ b ++ "/" ++ c ++ post) = Some (b ++ "/" ++ c ++ post))
        by apply literal_app.
      assert (D2 : Re.digits1 (b ++ "/" ++ c ++ post) = Some (b, "/" ++ c ++ post))
        by (apply (digits1_stop b "/"); auto).
      assert (L3 : Re.literal "/" ("/" ++ c ++ post) = Some (c ++ post)) by apply literal_app.
      assert (D3 : Re.digits1 (c ++ post) <> None).
      { unfold Re.digits1. destruct Hc as [Hne Hc]. rewrite span_digits_app by exact Hc.
        destruct c; [contradiction|]. simpl. discriminate. }
      unfold Re.match_here.
      rewrite L1; cbv beta iota. rewrite D1; cbv beta iota.
      rewrite L2; cbv beta iota. rewrite D2; cbv beta iota.
      rewrite L3; cbv beta iota.
      destruct (Re.digits1 (c ++ post)) as [[? ?]|]; [discriminate | contradiction]. }
    destruct (Re.match_here _) as [g|] eqn:E; [|contradiction].
    change (Re.search ("offres " ++ a ++ "-" ++ b ++ "/" ++ c ++ post) <> None).
    rewrite (search_here _ _ E). discriminate.
  - assert (E : forall t, Re.search (String x t) =
              match Re.match_here (String x t) with
              | Some g => Some g
              | None => Re.search t
              end) by reflexivity.
    change (String x pre ++ "offres " ++ a ++ "-" ++ b ++ "/" ++ c ++ post)
      with (String x (pre ++ "offres " ++ a ++ "-" ++ b ++ "/" ++ c ++ post)).
    rewrite E. destruct (Re.match_here _); [discriminate | exact IH].
Qed.

Lemma search_none_iff : forall s, Re.search s = None <-> ~ has_range s.
Proof.
  intros s. split.
  - intros H Hr. exact (search_complete s Hr H).
  - intros H. destruct (Re.search s) as [g|] eqn:E; [|reflexivity].
    exfalso. apply H. exact (search_inv s g E).
Qed.

Lemma match_here_exact : forall a b c,
  number a -> number b -> number c ->
  Re.match_here ("offres " ++ a ++ "-" ++ b ++ "/" ++ c) =
  Some {| Re.first_index := a; Re.last_index := b; Re.max_results := c |}.
Proof.
  intros a b c Ha Hb Hc.
  assert (L1 : Re.literal "offres " ("offres " ++ a ++ "-" ++ b ++ "/" ++ c)
               = Some (a ++ "-" ++ b ++ "/" ++ c)) by apply literal_app.
  assert (D1 : Re.digits1 (a ++ "-" ++ b ++ "/" ++ c)
               = Some (a, "-" ++ b ++ "/" ++ c))
    by (apply (digits1_stop a "-"); auto).
  assert (L2 : Re.literal "-" ("-" ++ b ++ "/" ++ c) = Some (b ++ "/" ++ c))
    by apply literal_app.
  assert (D2 : Re.digits1 (b ++ "/" ++ c) = Some (b, "/" ++ c))
    by (apply (digits1_stop b "/"); auto).
  assert (L3 : Re.literal "/" ("/" ++ c) = Some c) by apply literal_app.
  pose proof (digits1_all c Hc) as D3.
  unfold Re.match_here.
  rewrite L1; cbv beta iota. rewrite D1; cbv beta iota.
  rewrite L2; cbv beta iota. rewrite D2; cbv beta iota.
  rewrite L3; cbv beta iota. rewrite D3. reflexivity.
Qed.

(** A text of the exact form is the one its own groups spell. *)
Lemma exact_range_groups : forall v,
  exact_range v ->
  exists g,
    Re.match_here v = Some g /\
    v = "offres " ++ Re.first_index g ++ "-" ++ Re.last_index g ++ "/"
        ++ Re.max_results g.
Proof.
  intros v (a & b & c & -> & Ha & Hb & Hc).
  eexists. split; [apply match_here_exact; assumption | reflexivity].
Qed.


Lemma status_2xx : forall r,
  200 <= status_code r < 300 -> http_error_msg r = None.
Proof.
  intros r H. unfold http_error_msg.
  destruct (400 <=? status_code r) eqn:E1; [apply Z.leb_le in E1; lia|].
  destruct (500 <=? status_code r) eqn:E2; [apply Z.leb_le in E2; lia|].
  reflexivity.
Qed.

(* ================================================================== *)
(** ** [search]: what becomes of the response *)
(* ================================================================== *)

Section SearchProperties.

Variable repr : pyval -> string.

Lemma search_after_exchange : forall p b s r s1,
  search_exchange repr p s = (inr r, s1) ->
  search repr p b s = search_outcome b r s1.
Proof.
  intros p b s r s1 H. rewrite search_eq. unfold bind. rewrite H. reflexivity.
Qed.

(** C4, as the code has it.  A 2xx answer whose [Content-Range] is
    ["offres <first>-<last>/<max>"] and whose body is a JSON object: the
    result is that object with the key ["Content-Range"] set to the three
    captured digit strings, kept as text. *)
Theorem search_content_range : forall p b s r s1 d first last max,
  search_exchange repr p s = (inr r, s1) ->
  200 <= status_code r < 300 ->
  header_get "Content-Range" (Requests.headers r) =
    Some ("offres " ++ first ++ "-" ++ last ++ "/" ++ max) ->
  number first -> number last -> number max ->
  json r = Some (PDict d) ->
  let range := PDict [ ("first_index", PStr first);
                       ("last_index", PStr last);
                       ("max_results", PStr max) ] in
  search repr p b s = (inr (PDict (dict_set "Content-Range" range d)), s1) /\
  getitem (PDict (dict_set "Content-Range" range d)) "Content-Range" = inr range.
Proof.
  intros p b s r s1 d first last max Hx H2 Hh Hf Hl Hm Hj range.
  split.
  - rewrite (search_after_exchange _ _ _ _ _ Hx).
    unfold search_outcome, raise_for_status. rewrite (status_2xx r H2).
    unfold_m. unfold header_getitem. rewrite Hh.
    rewrite (search_well_formed first last max Hf Hl Hm).
    unfold json_of. rewrite Hj. reflexivity.
  - simpl. rewrite dict_get_set. reflexivity.
Qed.

(** C5, as the code has it.  A 2xx answer without a [Content-Range]
    header, or with one that holds the pattern
    ["offres <first>-<last>/<max>"] nowhere in its text: [search] raises
    ([KeyError] for the missing header, [AttributeError] for the failed
    match) and returns no result. *)
Theorem search_malformed_content_range : forall p b s r s1,
  search_exchange repr p s = (inr r, s1) ->
  200 <= status_code r < 300 ->
  (header_get "Content-Range" (Requests.headers r) = None ->
   search repr p b s = (inl (KeyError "content-range"), s1))
  /\
  (forall v,
     header_get "Content-Range" (Requests.headers r) = Some v ->
     ~ has_range v ->
     search repr p b s = (inl AttributeError, s1)).
Proof.
  intros p b s r s1 Hx H2.
  rewrite (search_after_exchange _ _ _ _ _ Hx).
  unfold search_outcome, raise_for_status. rewrite (status_2xx r H2).
  unfold_m. unfold header_getitem. split.
  - intros Hh. rewrite Hh. reflexivity.
  - intros v Hh Hv. apply search_none_iff in Hv. rewrite Hh, Hv. reflexivity.
Qed.

End SearchProperties.

(* ================================================================== *)
(** ** [referentiel] *)
(* ================================================================== *)

Section ReferentielProperties.

Variable repr : pyval -> string.

(** With a live cached token, [get_headers] reads the clock once and
    touches nothing else. *)
Lemma get_headers_cached : forall s t e a,
  token (self s) = Some t ->
  getitem t "expires_at" = inr (PDatetime e) ->
  next_reading (world s) < e ->
  getitem t "access_token" = inr a ->
  get_headers repr s =
  (inr [ ("Authorization", "Bearer " ++ str repr a) ],
   {| self := self s; world := snd (today (world s)) |}).
Proof.
  intros s t e a Ht He Hlive Ha.
  unfold get_headers, is_expired. do 2 unfold_m. simpl.
  rewrite Ht. simpl. rewrite Ht, He. simpl.
  unfold next_reading in Hlive. apply Z.leb_gt in Hlive. rewrite Hlive.
  simpl. rewrite Ht, Ha. reflexivity.
Qed.

(** One call answered by a 2xx response with a JSON body, on a client
    that holds a live token. *)
Lemma referentiel_answered : forall cid sec vb px n s t e a r rest v,
  session (self s) = session (__init__ cid sec vb px) ->
  token (self s) = Some t ->
  getitem t "expires_at" = inr (PDatetime e) ->
  getitem t "access_token" = inr a ->
  next_reading (world s) < e ->
  inbox (world s) = Answer r :: rest ->
  200 <= status_code r < 300 ->
  json r = Some v ->
  exists s',
    referentiel repr n s = (inr v, s') /\
    self s' = self s /\
    inbox (world s') = rest /\
    clock (world s') = clock (world s) /\
    reads (world s') = S (reads (world s)).
Proof.
  intros cid sec vb px n s t e a r rest v Hses Ht He Ha Hlive Hin H2 Hj.
  unfold referentiel. unfold_m. simpl.
  rewrite (get_headers_cached s t e a Ht He Hlive Ha).
  rewrite Hses. unfold send. simpl. unfold transmit. simpl. rewrite Hin.
  assert (Hno : forall left,
    is_retry {| total := 3; backoff_factor := 1; status_forcelist := [502; 429];
                respect_retry_after_header := false |} left GET r = false).
  { intros left. unfold is_retry. simpl.
    destruct (status_code r =? 502) eqn:E1; [apply Z.eqb_eq in E1; lia|].
    destruct (status_code r =? 429) eqn:E2; [apply Z.eqb_eq in E2; lia|].
    simpl. now rewrite Bool.andb_false_r. }
  rewrite Hno. simpl.
  unfold raise_for_status. rewrite (status_2xx r H2).
  unfold json_of. rewrite Hj.
  eexists. split; [reflexivity|]. simpl. auto.
Qed.

(** C10.  Two calls of [referentiel] in a row with the same name, on a
    client whose cached token is live at both checks, both answered by
    the same 2xx response with a JSON body: both return that body. *)
Theorem referentiel_twice : forall cid sec vb px n s t e a r rest v,
  session (self s) = session (__init__ cid sec vb px) ->
  token (self s) = Some t ->
  getitem t "expires_at" = inr (PDatetime e) ->
  getitem t "access_token" = inr a ->
  clock (world s) (reads (world s)) < e ->
  clock (world s) (S (reads (world s))) < e ->
  inbox (world s) = Answer r :: Answer r :: rest ->
  200 <= status_code r < 300 ->
  json r = Some v ->
  let first := referentiel repr n s in
  let second := referentiel repr n (snd first) in
  fst first = inr v /\ fst second = inr v /\ fst first = fst second.
Proof.
  intros cid sec vb px n s t e a r rest v Hses Ht He Ha H1 H2 Hin Hst Hj.
  destruct (referentiel_answered cid sec vb px n s t e a r (Answer r :: rest) v
              Hses Ht He Ha H1 Hin Hst Hj)
    as (s' & E1 & Hself & Hin' & Hclock & Hreads).
  assert (Hlive' : next_reading (world s') < e)
    by (unfold next_reading; rewrite Hclock, Hreads; exact H2).
  rewrite <- Hself in Hses, Ht.
  destruct (referentiel_answered cid sec vb px n s' t e a r rest v
              Hses Ht He Ha Hlive' Hin' Hst Hj)
    as (s'' & E2 & _).
  simpl. rewrite E1. simpl. rewrite E2. simpl. auto.
Qed.

End ReferentielProperties.

(* ================================================================== *)
(** ** What every call preserves *)
(* ================================================================== *)

Lemma keeps_refl : forall a, keeps a a.
Proof. intros a. repeat split; auto. Qed.

Lemma keeps_trans : forall a b c, keeps a b -> keeps b c -> keeps a c.
Proof.
  intros a b c [(A1 & A2 & A3 & A4 & A5 & A6) At] [(B1 & B2 & B3 & B4 & B5 & B6) Bt].
  split; [|auto].
  repeat split; congruence.
Qed.

Section Invariants.
Variable repr : pyval -> string.

Lemma get_token_keeps : forall s, keeps (self s) (self (snd (get_token repr s))).
Proof.
  intros s. unfold get_token. unfold_m. simpl. rewrite send_default.
  unfold transmit. simpl.
  repeat (break_match; simpl; try apply keeps_refl).
  split; [repeat split|]. intros _. unfold token_shaped. simpl.
  eexists. eapply setitem_getitem. eassumption.
Qed.

Lemma is_expired_keeps : forall s, self (snd (is_expired s)) = self s.
Proof.
  intros s. unfold is_expired. do 2 unfold_m. simpl.
  repeat (break_match; simpl; auto).
Qed.

Lemma get_headers_keeps : forall s, keeps (self s) (self (snd (get_headers repr s))).
Proof.
  intros s. unfold get_headers, is_expired. do 2 unfold_m.
  destruct (token (self s)) as [old|] eqn:Htok; simpl; [rewrite Htok|].
  - repeat (break_match; simpl; try apply keeps_refl);
      match goal with
      | Hg : get_token repr ?x = (_, ?y) |- keeps _ (self ?y) =>
          pose proof (get_token_keeps x) as K; rewrite Hg in K; exact K
      end.
  - repeat (break_match; simpl; try apply keeps_refl);
      match goal with
      | Hg : get_token repr ?x = (_, ?y) |- keeps _ (self ?y) =>
          pose proof (get_token_keeps x) as K; rewrite Hg in K; exact K
      end.
Qed.

Ltac by_get_headers :=
  match goal with
  | Hg : get_headers repr ?x = (_, ?y) |- keeps _ _ =>
      let K := fresh "K" in
      pose proof (get_headers_keeps x) as K; rewrite Hg in K; exact K
  end.

Lemma referentiel_keeps : forall n s,
  keeps (self s) (self (snd (referentiel repr n s))).
Proof.
  intros n s. unfold referentiel. unfold_m. simpl.
  repeat (break_match; simpl; try by_get_headers).
Qed.

Lemma search_keeps : forall p b s,
  keeps (self s) (self (snd (search repr p b s))).
Proof.
  intros p b s. unfold search. unfold_m. simpl.
  destruct (verbose (self s)); simpl;
    repeat (break_match; simpl; try by_get_headers).
Qed.

Lemma call_keeps : forall c s, keeps (self s) (self (call repr c s)).
Proof.
  intros [] s; simpl.
  - apply get_token_keeps.
  - rewrite is_expired_keeps. apply keeps_refl.
  - apply get_headers_keeps.
  - apply referentiel_keeps.
  - apply search_keeps.
Qed.

Lemma run_keeps : forall cs s, keeps (self s) (self (run repr cs s)).
Proof.
  induction cs as [|c cs IH]; intros s; simpl.
  - apply keeps_refl.
  - eapply keeps_trans; [apply call_keeps | apply IH].
Qed.

(** Whatever calls are made on a client built by [Api.__init__], its
    credentials, verbosity, proxies, timeout and retry policy stay as
    constructed, and its token, once there, carries a [datetime] under
    [expires_at]. *)
Theorem client_invariant : forall cid sec v p w cs,
  let a := self (run repr cs {| self := __init__ cid sec v p; world := w |}) in
  client_id a = cid /\ client_secret a = sec /\ verbose a = v /\
  proxies a = p /\ timeout a = 60 /\
  session a = session (__init__ cid sec v p) /\
  token_shaped a.
Proof.
  intros cid sec v p w cs a.
  destruct (run_keeps cs {| self := __init__ cid sec v p; world := w |})
    as [(A1 & A2 & A3 & A4 & A5 & A6) At].
  fold a in A1, A2, A3, A4, A5, A6, At.
  repeat split; try assumption. apply At. exact I.
Qed.

(** On such a client, [is_expired] with a token in place does not raise. *)
Lemma is_expired_total : forall cid sec v p w cs,
  let s := run repr cs {| self := __init__ cid sec v p; world := w |} in
  token (self s) <> None ->
  exists b, fst (is_expired s) = inr b.
Proof.
  intros cid sec v p w cs s Hsome.
  assert (Hshape : token_shaped (self s)).
  { destruct (run_keeps cs {| self := __init__ cid sec v p; world := w |})
      as [_ At]. apply At. exact I. }
  unfold token_shaped in Hshape.
  destruct (token (self s)) as [t|] eqn:Ht; [|contradiction].
  destruct Hshape as (e & He).
  unfold is_expired. do 2 unfold_m. simpl. rewrite Ht, He. simpl. eauto.
Qed.
End Invariants.

(** [re.search] finds the pattern of [search] in a text exactly when the
    text holds ["offres <first>-<last>/<max>"] somewhere. *)
Theorem content_range_pattern : forall v,
  has_range v <-> exists g, Re.search v = Some g.
Proof.
  intros v. split.
  - intros H. destruct (Re.search v) as [g|] eqn:E; [eauto|].
    exfalso. exact (search_complete v H E).
  - intros (g & E). exact (search_inv v g E).
Qed.

(* ================================================================== *)
(** ** The error statuses that reach [search] *)
(* ================================================================== *)

Section SurfacedErrors.
Variable repr : pyval -> string.

Lemma search_exchange_announced : forall p s,
  search_exchange repr p s =
  match get_headers repr (announced repr p s) with
  | (inl e, s') => (inl e, s')
  | (inr h, s') =>
      let (x, w) := send (session (self s)) (search_request (self s) p h) (world s') in
      (x, {| self := self s'; world := w |})
  end.
Proof.
  intros p s. unfold search_exchange, announced. unfold_m.
  destruct (verbose (self s)); reflexivity.
Qed.

Lemma search_exchange_unforced : forall cid sec v px p s r s1,
  session (self s) = session (__init__ cid sec v px) ->
  search_exchange repr p s = (inr r, s1) -> ~ forced r.
Proof.
  intros cid sec v px p s r s1 Hses H.
  rewrite search_exchange_announced, Hses in H.
  destruct (get_headers repr (announced repr p s)) as [[e|h] s'];
    [discriminate|].
  destruct (send (session (__init__ cid sec v px))
              (search_request (self s) p h) (world s')) as [x w'] eqn:Hsend.
  inversion H; subst.
  eapply send_unforced; [|exact Hsend]. reflexivity.
Qed.

Lemma run_session : forall cid sec v px w cs,
  session (self (run repr cs {| self := __init__ cid sec v px; world := w |}))
  = session (__init__ cid sec v px).
Proof.
  intros cid sec v px w cs.
  destruct (run_keeps repr cs {| self := __init__ cid sec v px; world := w |})
    as [(_ & _ & _ & _ & _ & H) _]. exact H.
Qed.

(** C6, as the code has it.  An answer with an HTTP error status that
    the session hands to [search]: on status 400 with a JSON object whose
    [message] is a text, the text surfaced (printed under
    [silent_http_errors], raised otherwise) is the HTTP error text, a
    line break and the message; on every other error status it is the
    HTTP error text alone.  On a client built by [Api.__init__], whatever
    calls came before, the statuses 429 and 502 are never among them: the
    session retries those and does not hand them back. *)
Theorem search_error_text : forall p b s r s1 error,
  search_exchange repr p s = (inr r, s1) ->
  http_error_msg r = Some error ->
  (status_code r = 400 ->
   forall body message,
     json r = Some body ->
     getitem body "message" = inr (PStr message) ->
     search repr p b s = surfaced b (error ++ newline ++ message) s1)
  /\
  (status_code r <> 400 ->
   search repr p b s = surfaced b error s1)
  /\
  (forall cid sec v px w cs,
     s = run repr cs {| self := __init__ cid sec v px; world := w |} ->
     status_code r <> 429 /\ status_code r <> 502).
Proof.
  intros p b s r s1 error Hx He. split; [|split].
  - rewrite (search_after_exchange _ _ _ _ _ _ Hx).
    unfold search_outcome, raise_for_status. rewrite He.
    intros H400 body message Hj Hm. apply Z.eqb_eq in H400. rewrite H400.
    assert (A : (error ++ newline) ++ message = error ++ newline ++ message)
      by (clear; induction error; simpl; [reflexivity | now rewrite IHerror]).
    unfold_m. unfold json_of. rewrite Hj, Hm. unfold str_add, surfaced.
    rewrite A. destruct b; reflexivity.
  - rewrite (search_after_exchange _ _ _ _ _ _ Hx).
    unfold search_outcome, raise_for_status. rewrite He.
    intros Hne. apply Z.eqb_neq in Hne. rewrite Hne.
    destruct b; reflexivity.
  - intros cid sec v px w cs Hs.
    assert (Hnf : ~ forced r).
    { eapply (search_exchange_unforced cid sec v px); [|exact Hx].
      rewrite Hs. apply run_session. }
    unfold forced in Hnf. split; intros E; apply Hnf; auto.
Qed.

End SurfacedErrors.

(* ================================================================== *)
(** ** Worked examples *)
(* ================================================================== *)

(** The spec's own run: a token granted for 1500 seconds at [t0] expires
    at [t0] plus 1500 seconds, although the clock has moved on. *)
Example token_of_1500_seconds :
  let result := get_token Samples.sample_repr (Samples.start [Answer Samples.token_granted]) in
  fst result = inr Samples.cached_token /\
  getitem Samples.cached_token "expires_at"
    = inr (PDatetime (Samples.t0 + 1500 * 1000000)).
Proof. split; reflexivity. Qed.

Lemma get_token_expires_at_witness :
  get_token Samples.sample_repr (Samples.start [Answer Samples.token_granted])
    = (inr Samples.cached_token,
       snd (get_token Samples.sample_repr
              (Samples.start [Answer Samples.token_granted])))
  /\
  exists r body expires_in n,
    trace (world (snd (get_token Samples.sample_repr
                         (Samples.start [Answer Samples.token_granted])))) =
      [Today Samples.t0; Sent (token_request Samples.new_client)] /\
    [Answer Samples.token_granted] = [Answer r] /\
    json r = Some body /\
    getitem body "expires_in" = inr expires_in /\
    seconds_of expires_in = Some n /\
    getitem Samples.cached_token "expires_at"
      = inr (PDatetime (Samples.t0 + n * 1000000)) /\
    Some Samples.cached_token = Some Samples.cached_token.
Proof.
  split; [reflexivity|].
  exact (get_token_expires_at Samples.sample_repr
           (Samples.start [Answer Samples.token_granted])
           Samples.cached_token _ eq_refl).
Defined.

(** A refused token request on a client that holds a token: the token
    stays. *)
Example get_token_refused_keeps_token :
  let s := Samples.resume [Answer (Samples.token_refused 401 "Unauthorized")] in
  fst (get_token Samples.sample_repr s)
    = inl (HTTPError ("401 Client Error: Unauthorized for url: " ++ ENDPOINT_ACCESS_TOKEN)) /\
  token (self (snd (get_token Samples.sample_repr s))) = Some Samples.cached_token.
Proof. split; reflexivity. Qed.

(** C7, the claim as worded fails on status 401: the body of the answer is
    JSON, yet the error raised is the bare HTTP error text, with nothing
    of the body in it. *)
Lemma get_token_401_drops_body :
  let r := Samples.token_refused 401 "Unauthorized" in
  let raw := "401 Client Error: Unauthorized for url: " ++ ENDPOINT_ACCESS_TOKEN in
  fst (get_token Samples.sample_repr (Samples.start [Answer r])) = inl (HTTPError raw) /\
  json r = Some (PDict [ ("error", PStr "invalid_client") ]) /\
  String.index 0 "invalid_client" raw = None /\
  400 <= status_code r < 500.
Proof. repeat split; try reflexivity; simpl; lia. Qed.

Lemma get_token_http_error_witness :
  let r := Samples.token_refused 400 "Bad Request" in
  let s := Samples.start [Answer r] in
  fst (get_token Samples.sample_repr s)
    = inl (HTTPError ("400 Client Error: Bad Request for url: "
                      ++ ENDPOINT_ACCESS_TOKEN ++ newline
                      ++ "{'error': 'invalid_client'}")).
Proof.
  exact (proj1 (get_token_http_error Samples.sample_repr
                  (Samples.start [Answer (Samples.token_refused 400 "Bad Request")])
                  (Samples.token_refused 400 "Bad Request") []
                  ("400 Client Error: Bad Request for url: " ++ ENDPOINT_ACCESS_TOKEN)
                  eq_refl eq_refl)
               eq_refl (PDict [ ("error", PStr "invalid_client") ]) eq_refl).
Defined.

(** The request a search on the sample client sends. *)
Lemma no_stale_token_witness :
  justified Samples.sample_repr
    (run Samples.sample_repr [CallSearch PNone false]
       (Samples.start [Answer Samples.token_granted; Answer Samples.offers_page;
                       Answer Samples.themes]))
    [ ("Authorization", "Bearer abc") ].
Proof.
  refine (no_stale_token Samples.sample_repr [CallSearch PNone false]
            (Samples.start [Answer Samples.token_granted; Answer Samples.offers_page;
                            Answer Samples.themes])
            (CallReferentiel "themes")
            {| meth := GET;
               req_url := REFERENTIEL_ENDPOINT ++ "/themes";
               req_headers := [ ("Authorization", "Bearer abc") ];
               req_params := PNone;
               req_data := PNone;
               req_timeout := 60;
               req_proxies := PNone |}
            I _ eq_refl).
  vm_compute. right. left. reflexivity.
Defined.

(** The spec's runs of the retry policy: [502, 502, 200] takes three
    attempts and hands back the 200; four 429 in a row take four attempts
    and end in [RetryError], and the [Retry-After: 30] they carry is not
    honoured: the pauses are 2 and 4 seconds. *)
Example retry_502_502_200 :
  let q := {| meth := GET; req_url := SEARCH_ENDPOINT; req_headers := [];
              req_params := PNone; req_data := PNone; req_timeout := 60;
              req_proxies := PNone |} in
  let bad := Samples.search_refused 502 "Bad Gateway" None in
  let w := Samples.world_with [Answer bad; Answer bad; Answer Samples.offers_page] in
  fst (send (session Samples.new_client) q w) = inr Samples.offers_page /\
  added w (snd (send (session Samples.new_client) q w))
    = [Sent q; Sent q; Slept 2; Sent q].
Proof. split; reflexivity. Qed.

Example retry_429_four_times :
  let q := {| meth := GET; req_url := SEARCH_ENDPOINT; req_headers := [];
              req_params := PNone; req_data := PNone; req_timeout := 60;
              req_proxies := PNone |} in
  let bad := Samples.search_refused 429 "Too Many Requests" None in
  let w := Samples.world_with [Answer bad; Answer bad; Answer bad; Answer bad] in
  fst (send (session Samples.new_client) q w) = inl RetryError /\
  added w (snd (send (session Samples.new_client) q w))
    = [Sent q; Sent q; Slept 2; Sent q; Slept 4; Sent q].
Proof. split; reflexivity. Qed.


(** C4, the claim as worded fails: for ["offres 0-19/134"] the fields of
    the range are the texts ["0"], ["19"] and ["134"], not the integers
    0, 19 and 134. *)
Lemma range_fields_are_text :
  let result := search Samples.sample_repr PNone false
                  (Samples.resume [Answer Samples.offers_page]) in
  exists out,
    fst result = inr out /\
    getitem out "Content-Range"
      = inr (PDict [ ("first_index", PStr "0"); ("last_index", PStr "19");
                     ("max_results", PStr "134") ]) /\
    getitem out "Content-Range"
      <> inr (PDict [ ("first_index", PInt 0); ("last_index", PInt 19);
                      ("max_results", PInt 134) ]).
Proof.
  eexists. split; [reflexivity|]. split; [reflexivity|].
  intros H; discriminate H.
Qed.

Lemma search_content_range_witness :
  let s := Samples.resume [Answer Samples.offers_page] in
  let range := PDict [ ("first_index", PStr "0"); ("last_index", PStr "19");
                       ("max_results", PStr "134") ] in
  let out := PDict [ ("resultats", PList []); ("Content-Range", range) ] in
  search Samples.sample_repr PNone false s
    = (inr out, snd (search_exchange Samples.sample_repr PNone s)) /\
  getitem out "Content-Range" = inr range.
Proof.
  intros s range out.
  refine (search_content_range Samples.sample_repr PNone false s
            Samples.offers_page _ [ ("resultats", PList []) ] "0" "19" "134"
            eq_refl _ eq_refl _ _ _ eq_refl).
  - simpl. lia.
  - split; [discriminate | reflexivity].
  - split; [discriminate | reflexivity].
  - split; [discriminate | reflexivity].
Defined.

Lemma search_malformed_content_range_witness :
  let r := Samples.response 200 "OK" SEARCH_ENDPOINT []
             (Some (PDict [ ("resultats", PList []) ])) in
  let s := Samples.resume [Answer r] in
  search Samples.sample_repr PNone false s
    = (inl (KeyError "content-range"),
       snd (search_exchange Samples.sample_repr PNone s)).
Proof.
  intros r s.
  refine (proj1 (search_malformed_content_range Samples.sample_repr PNone false s
                   r _ eq_refl _) eq_refl).
  simpl. lia.
Defined.

(** A header in which the pattern is not found. *)
Example search_unmatched_content_range :
  let r := Samples.response 200 "OK" SEARCH_ENDPOINT
             [ ("Content-Range", "offres 0-19") ]
             (Some (PDict [ ("resultats", PList []) ])) in
  fst (search Samples.sample_repr PNone false (Samples.resume [Answer r]))
    = inl AttributeError.
Proof. reflexivity. Qed.

(** C5, the claim as worded fails: a header that is not of the form
    ["offres <first>-<last>/<max>"], because more text follows, is
    accepted all the same, and [search] returns a result. *)
Lemma search_accepts_padded_content_range :
  let r := Samples.response 206 "Partial Content" SEARCH_ENDPOINT
             [ ("Content-Range", "offres 0-19/134xyz") ]
             (Some (PDict [ ("resultats", PList []) ])) in
  ~ exact_range "offres 0-19/134xyz" /\
  exists out,
    fst (search Samples.sample_repr PNone false (Samples.resume [Answer r]))
      = inr out /\
    getitem out "Content-Range"
      = inr (PDict [ ("first_index", PStr "0"); ("last_index", PStr "19");
                     ("max_results", PStr "134") ]).
Proof.
  split.
  - intros Hex. destruct (exact_range_groups _ Hex) as (g & Hm & Hv).
    vm_compute in Hm. inversion Hm; subst g. simpl in Hv. discriminate Hv.
  - eexists. split; reflexivity.
Qed.

(** C6, the claim as worded fails on status 404: the body carries a
    [message], yet the text raised is the bare HTTP error text. *)
Lemma search_404_drops_message :
  let r := Samples.search_refused 404 "Not Found" (Some Samples.invalid_filter) in
  let raw := "404 Client Error: Not Found for url: " ++ SEARCH_ENDPOINT in
  fst (search Samples.sample_repr PNone false (Samples.resume [Answer r]))
    = inl (HTTPError raw) /\
  getitem Samples.invalid_filter "message" = inr (PStr "invalid filter") /\
  String.index 0 "invalid filter" raw = None /\
  400 <= status_code r < 500.
Proof. repeat split; try reflexivity; simpl; lia. Qed.

Lemma search_error_text_witness :
  let r := Samples.search_refused 400 "Bad Request" (Some Samples.invalid_filter) in
  let s := Samples.resume [Answer r] in
  search Samples.sample_repr PNone false s
    = (inl (HTTPError ("400 Client Error: Bad Request for url: "
                       ++ SEARCH_ENDPOINT ++ newline ++ "invalid filter")),
       snd (search_exchange Samples.sample_repr PNone s)).
Proof.
  intros r s.
  exact (proj1 (search_error_text Samples.sample_repr PNone false s r _
                  ("400 Client Error: Bad Request for url: " ++ SEARCH_ENDPOINT)
                  eq_refl eq_refl)
               eq_refl Samples.invalid_filter "invalid filter" eq_refl eq_refl).
Defined.

(** C8, where the code departs from the claim: under
    [silent_http_errors], a 400 answer whose body is not JSON makes
    [search] raise, and nothing is printed. *)
Theorem search_silent_400_raises :
  let r := Samples.search_refused 400 "Bad Request" None in
  let s := Samples.resume [Answer r] in
  fst (search Samples.sample_repr PNone true s) = inl JSONDecodeError /\
  pauses (new_events s (snd (search Samples.sample_repr PNone true s))) = [] /\
  forall line,
    ~ In (Printed line) (new_events s (snd (search Samples.sample_repr PNone true s))).
Proof.
  repeat split.
  intros line. vm_compute. intros [H | [H | H]]; try discriminate H; exact H.
Qed.

(** Under [silent_http_errors], a 429 that outlasts the retries raises
    too: [RetryError] comes out of the session before [search] looks at
    any status. *)
Example search_silent_retries_exhausted :
  let bad := Samples.search_refused 429 "Too Many Requests" None in
  fst (search Samples.sample_repr PNone true
         (Samples.resume [Answer bad; Answer bad; Answer bad; Answer bad]))
    = inl RetryError.
Proof. reflexivity. Qed.

(** Under [silent_http_errors], the other error statuses are printed and
    [None] is returned. *)
Example search_silent_404 :
  let r := Samples.search_refused 404 "Not Found" None in
  let s := Samples.resume [Answer r] in
  fst (search Samples.sample_repr PNone true s) = inr PNone /\
  In (Printed ("404 Client Error: Not Found for url: " ++ SEARCH_ENDPOINT))
     (new_events s (snd (search Samples.sample_repr PNone true s))).
Proof. split; [reflexivity|]. vm_compute. auto. Qed.

Lemma referentiel_twice_witness :
  let s := Samples.resume [Answer Samples.themes; Answer Samples.themes] in
  let v := PList [ PDict [ ("code", PStr "01"); ("libelle", PStr "Agriculture") ] ] in
  let first := referentiel Samples.sample_repr "themes" s in
  let second := referentiel Samples.sample_repr "themes" (snd first) in
  fst first = inr v /\ fst second = inr v /\ fst first = fst second.
Proof.
  intros s v.
  refine (referentiel_twice Samples.sample_repr "id" "secret" false PNone "themes" s
            Samples.cached_token (Samples.t0 + 1500 * 1000000) (PStr "abc")
            Samples.themes [] v eq_refl eq_refl eq_refl eq_refl _ _ eq_refl _ eq_refl).
  - vm_compute. reflexivity.
  - vm_compute. reflexivity.
  - simpl. lia.
Defined.

(* ================================================================== *)
(** ** Further properties of the client *)
(* ================================================================== *)

Section FurtherProperties.
Variable repr : pyval -> string.

Lemma get_token_trace : forall x res y,
  get_token repr x = (res, y) ->
  trace (world y) =
    (trace (world x)
       ++ [Today (next_reading (world x)); Sent (token_request (self x))])%list.
Proof.
  intros x res' y Hg. unfold get_token in Hg. unfold_m. simpl in Hg.
  rewrite send_default in Hg. unfold transmit in Hg. simpl in Hg.
  repeat (break_match_in Hg; simpl in Hg); pair_inv Hg; simpl;
    rewrite <- app_assoc; reflexivity.
Qed.

Lemma get_headers_trace : forall s res s1,
  get_headers repr s = (res, s1) ->
  exists evs,
    trace (world s1) = (trace (world s) ++ evs)%list /\
    (requests evs = [] \/ requests evs = [token_request (self s)]).
Proof.
  intros s res s1 H.
  unfold get_headers, is_expired in H. do 2 unfold_m.
  destruct (token (self s)) as [old|] eqn:Htok; simpl in H;
    [rewrite Htok in H|];
    repeat (break_match_in H; simpl in H; try discriminate);
    pair_inv H; simpl;
    try match goal with
        | Hg : get_token _ _ = _ |- _ =>
            apply get_token_trace in Hg; simpl in Hg; rewrite Hg
        end;
    simpl; rewrite <- ?app_assoc; simpl;
    (eexists; split; [reflexivity|]); simpl; auto.
Qed.

(** [get_headers] never makes more than one request, and never a GET. *)
Theorem get_headers_one_request : forall s,
  let evs := new_events s (snd (get_headers repr s)) in
  requests evs = [] \/ requests evs = [token_request (self s)].
Proof.
  intros s evs. subst evs.
  destruct (get_headers repr s) as [res s1] eqn:H. simpl.
  destruct (get_headers_trace s res s1 H) as (evs & Htr & Hreq).
  unfold new_events. rewrite (added_app _ _ _ Htr). exact Hreq.
Qed.

Lemma requests_app : forall e1 e2,
  requests (e1 ++ e2) = (requests e1 ++ requests e2)%list.
Proof.
  induction e1 as [|[] e1 IH]; intros; simpl; rewrite ?IH; auto.
Qed.

Lemma urlopen_requests : forall cfg q left failed w,
  exists evs k,
    trace (snd (urlopen cfg left failed q w)) = (trace w ++ evs)%list /\
    requests evs = repeat q k /\ (1 <= k <= S left)%nat.
Proof.
  intros cfg q left. induction left as [|left IH]; intros failed w.
  - exists [Sent q], 1%nat. simpl.
    pose proof (transmit_trace q w) as Ht.
    destruct (transmit q w) as [o w1]. simpl in Ht.
    split; [|split; [reflexivity | lia]].
    destruct o as [r|]; [destruct (is_retry _ _ _ _)|]; exact Ht.
  - simpl. pose proof (transmit_trace q w) as Ht.
    destruct (transmit q w) as [o w1]. simpl in Ht.
    assert (Stop : forall x : exn + Response,
      exists evs k,
        trace (snd (x, w1)) = (trace w ++ evs)%list /\
        requests evs = repeat q k /\ (1 <= k <= S (S left))%nat).
    { intros x. exists [Sent q], 1%nat. simpl. repeat split; auto; lia. }
    assert (Again : forall resp,
      exists evs k,
        trace (snd (urlopen cfg left (S failed) q (sleep cfg (S failed) resp w1)))
          = (trace w ++ evs)%list /\
        requests evs = repeat q k /\ (1 <= k <= S (S left))%nat).
    { intros resp.
      destruct (sleep_is_time_sleep cfg (S failed) resp w1) as (d & ->).
      destruct (IH (S failed) (time_sleep d w1)) as (evs' & k & Htr & Hq & Hk).
      rewrite time_sleep_trace, Ht in Htr.
      exists (Sent q :: (if 0 <? d then [Slept d] else []) ++ evs')%list, (S k).
      split; [|split].
      - rewrite Htr. rewrite <- !app_assoc. reflexivity.
      - simpl. rewrite requests_app, Hq. destruct (0 <? d); reflexivity.
      - lia. }
    destruct o as [r|]; [destruct (is_retry _ _ _ _)|]; auto.
Qed.

Lemma headers_then_send_traffic : forall s s_pre mk res s1,
  self s_pre = self s ->
  (exists evs, trace (world s_pre) = (trace (world s) ++ evs)%list /\ requests evs = []) ->
  match get_headers repr s_pre with
  | (inl e, s') => (inl e, s')
  | (inr h, s') =>
      let (x, w) := send (session (self s)) (mk h) (world s') in
      (x, {| self := self s'; world := w |})
  end = (res, s1) ->
  exists evs,
    trace (world s1) = (trace (world s) ++ evs)%list /\
    session_traffic (self s) mk (S (total (session (self s)))) (requests evs).
Proof.
  intros s s_pre mk res s1 Hs (e0 & Hpre & Hq0) H.
  destruct (get_headers repr s_pre) as [[e|h] s'] eqn:Hgh;
    destruct (get_headers_trace _ _ _ Hgh) as (e1 & Htr1 & Hq1);
    rewrite Hs in Hq1.
  - pair_inv H. exists (e0 ++ e1)%list. split.
    + rewrite Htr1, Hpre, app_assoc. reflexivity.
    + exists (requests e1), [], 0%nat. rewrite requests_app, Hq0. simpl.
      rewrite app_nil_r. repeat split; auto. lia.
  - unfold send in H.
    destruct (urlopen_requests (session (self s)) (mk h)
                (total (session (self s))) 0 (world s'))
      as (e2 & k & Htr2 & Hq2 & Hk).
    destruct (urlopen _ _ _ _ _) as [x w]. pair_inv H. simpl in *.
    exists (e0 ++ e1 ++ e2)%list. split.
    + rewrite Htr2, Htr1, Hpre, !app_assoc. reflexivity.
    + exists (requests e1), h, k. rewrite !requests_app, Hq0, Hq2. simpl.
      repeat split; auto. lia.
Qed.

Lemma search_sends : forall p b s,
  session_traffic (self s) (search_request (self s) p)
    (S (total (session (self s))))
    (requests (new_events s (snd (search repr p b s)))).
Proof.
  intros p b s.
  assert (X : forall res s1, search_exchange repr p s = (res, s1) ->
    exists evs,
      trace (world s1) = (trace (world s) ++ evs)%list /\
      session_traffic (self s) (search_request (self s) p)
        (S (total (session (self s)))) (requests evs)).
  { intros res s1 H. unfold search_exchange in H. unfold_m. simpl in H.
    destruct (verbose (self s)); simpl in H;
      eapply (headers_then_send_traffic s _ (search_request (self s) p));
      try exact H; try reflexivity.
    - eexists. split; [reflexivity | reflexivity].
    - exists []. split; [symmetry; apply app_nil_r | reflexivity]. }
  destruct (search repr p b s) as [res s'] eqn:H. simpl.
  rewrite search_eq in H. unfold bind in H.
  destruct (search_exchange repr p s) as [[e|r] s1] eqn:Hx;
    destruct (X _ _ eq_refl) as (evs & Htr & Ht).
  - pair_inv H. unfold new_events. rewrite (added_app _ _ _ Htr). exact Ht.
  - destruct (search_outcome_grows _ _ _ _ _ H) as (e2 & Htr2 & F).
    unfold new_events.
    rewrite (added_app _ _ (evs ++ e2)%list)
      by (rewrite Htr2, Htr, app_assoc; reflexivity).
    rewrite requests_app.
    assert (E : requests e2 = []).
    { clear - F. induction F as [|ev l (line & ->) _ IH]; simpl; auto. }
    rewrite E, app_nil_r. exact Ht.
Qed.

Lemma referentiel_sends : forall n s,
  session_traffic (self s) (referentiel_request (self s) n)
    (S (total (session (self s))))
    (requests (new_events s (snd (referentiel repr n s)))).
Proof.
  intros n s.
  destruct (referentiel repr n s) as [res s'] eqn:H. simpl.
  unfold referentiel in H. unfold_m. simpl in H.
  match type of H with
  | (let (_, _) := ?c in _) = _ => destruct c as [[e|h] s1] eqn:Hgh
  end.
  - pair_inv H.
    destruct (headers_then_send_traffic s s (referentiel_request (self s) n)
                (inl e) s' eq_refl) as (evs & Htr & Ht).
    + exists []. split; [symmetry; apply app_nil_r | reflexivity].
    + rewrite Hgh. reflexivity.
    + unfold new_events. rewrite (added_app _ _ _ Htr). exact Ht.
  - match type of H with context [send ?c ?q ?w] =>
      destruct (send c q w) as [x w1] eqn:Hsend
    end.
    destruct (headers_then_send_traffic s s (referentiel_request (self s) n)
                x {| self := self s1; world := w1 |} eq_refl) as (evs & Htr & Ht).
    + exists []. split; [symmetry; apply app_nil_r | reflexivity].
    + assert (Hsend' : send (session (self s))
                         (referentiel_request (self s) n h) (world s1) = (x, w1))
        by exact Hsend.
      rewrite Hgh, Hsend'. reflexivity.
    + assert (world s' = w1) as E
        by (repeat (break_match_in H; simpl in H); pair_inv H; reflexivity).
      unfold new_events. rewrite E. simpl in Htr.
      rewrite (added_app _ _ _ Htr). exact Ht.
Qed.

(** [get_headers] on a client whose cached token is live: one reading of
    the clock, no request, and the header or the error of the lookup of
    [access_token]. *)
Lemma get_headers_live : forall s t e,
  token (self s) = Some t ->
  getitem t "expires_at" = inr (PDatetime e) ->
  next_reading (world s) < e ->
  get_headers repr s =
  (match getitem t "access_token" with
   | inr a => inr [ ("Authorization", "Bearer " ++ str repr a) ]
   | inl err => inl err
   end,
   {| self := self s; world := snd (today (world s)) |}).
Proof.
  intros s t e Ht He Hlive.
  unfold get_headers, is_expired. do 2 unfold_m. simpl.
  rewrite Ht. simpl. rewrite Ht, He. simpl.
  unfold next_reading in Hlive. apply Z.leb_gt in Hlive. rewrite Hlive.
  simpl. rewrite Ht. destruct (getitem t "access_token"); reflexivity.
Qed.

Lemma get_token_next_reading : forall s res s1,
  get_token repr s = (res, s1) ->
  clock (world s1) = clock (world s) /\ reads (world s1) = S (reads (world s)).
Proof.
  intros s res s1 H. unfold get_token in H. unfold_m. simpl in H.
  rewrite send_default in H. unfold transmit in H. simpl in H.
  repeat (break_match_in H; simpl in H); pair_inv H; simpl; auto.
Qed.

(** A token is fetched once and used again: after [get_token] has
    returned a token, a [get_headers] whose reading of the clock is before
    the token's [expires_at] sends nothing, keeps the token and builds the
    header from it. *)
Theorem token_is_reused : forall s tok s1 e a,
  get_token repr s = (inr tok, s1) ->
  getitem tok "expires_at" = inr (PDatetime e) ->
  getitem tok "access_token" = inr a ->
  next_reading (world s1) < e ->
  fst (get_headers repr s1) = inr [ ("Authorization", "Bearer " ++ str repr a) ] /\
  token (self (snd (get_headers repr s1))) = Some tok /\
  requests (new_events s1 (snd (get_headers repr s1))) = [].
Proof.
  intros s tok s1 e a Hg He Ha Hlive.
  pose proof (get_token_stores repr _ _ _ Hg) as Hst.
  rewrite (get_headers_live s1 tok e Hst He Hlive), Ha. simpl.
  repeat split; auto.
  unfold new_events, today. simpl.
  erewrite added_app; [|simpl; reflexivity]. reflexivity.
Qed.

(** [get_token] does not look for [access_token]: a token without one is
    cached all the same, and while it is live every [get_headers] raises
    [KeyError] and asks for no new token. *)
Theorem token_without_access_token : forall s tok s1 e,
  get_token repr s = (inr tok, s1) ->
  getitem tok "expires_at" = inr (PDatetime e) ->
  (forall a, getitem tok "access_token" <> inr a) ->
  next_reading (world s1) < e ->
  token (self s1) = Some tok /\
  fst (get_headers repr s1) = inl (KeyError "access_token") /\
  token (self (snd (get_headers repr s1))) = Some tok /\
  requests (new_events s1 (snd (get_headers repr s1))) = [].
Proof.
  intros s tok s1 e Hg He Hno Hlive.
  pose proof (get_token_stores repr _ _ _ Hg) as Hst.
  rewrite (get_headers_live s1 tok e Hst He Hlive).
  split; [exact Hst|].
  assert (Hk : getitem tok "access_token" = inl (KeyError "access_token")).
  { destruct tok; simpl in He; try discriminate. simpl.
    destruct (dict_get "access_token" d) as [a|] eqn:E; [|reflexivity].
    exfalso. apply (Hno a). simpl. rewrite E. reflexivity. }
  rewrite Hk. simpl. repeat split; auto.
  unfold new_events, today. simpl.
  erewrite added_app; [|simpl; reflexivity]. reflexivity.
Qed.

(** A token granted for no time, or for a negative one, is cached and is
    stale at once: unless the clock goes backwards, the next check finds
    it expired. *)
Theorem token_of_no_duration_is_stale : forall s tok s1 r body expires_in n,
  get_token repr s = (inr tok, s1) ->
  inbox (world s) = Answer r :: inbox (world s1) ->
  json r = Some body ->
  getitem body "expires_in" = inr expires_in ->
  seconds_of expires_in = Some n ->
  n <= 0 ->
  next_reading (world s) <= next_reading (world s1) ->
  token (self s1) = Some tok /\ fst (is_expired s1) = inr true.
Proof.
  intros s tok s1 r body ei n Hg Hin Hj Hei Hn Hle Hclock.
  pose proof (get_token_stores repr _ _ _ Hg) as Hst.
  split; [exact Hst|].
  unfold get_token in Hg. unfold_m. simpl in Hg.
  rewrite send_default in Hg. unfold transmit in Hg. simpl in Hg.
  repeat (break_match_in Hg; simpl in Hg; try discriminate).
  pair_inv Hg. simpl in *.
  match goal with H : Answer _ :: _ = Answer _ :: _ |- _ => inversion H; subst end.
  match goal with
  | Hd : timedelta_seconds _ = inr _ |- _ =>
      apply timedelta_seconds_inr in Hd; destruct Hd as (n' & Hn' & ->)
  end.
  match goal with
  | Ha : datetime_add _ _ = inr _ |- _ => apply datetime_add_inr in Ha; subst
  end.
  match goal with
  | Hj' : json_of _ = inr _ |- _ => apply json_of_inr in Hj'; rewrite Hj in Hj';
      inversion Hj'; subst
  end.
  match goal with
  | H1 : getitem ?b "expires_in" = inr ?x, H2 : getitem ?b "expires_in" = inr ?y |- _ =>
      rewrite H1 in H2; inversion H2; subst
  end.
  rewrite Hn in Hn'. inversion Hn'; subst n'.
  match goal with
  | Hs : setitem _ _ _ = inr _ |- _ => apply setitem_getitem in Hs; rename Hs into Hexp
  end.
  unfold is_expired. do 2 unfold_m. simpl. rewrite Hexp. simpl.
  f_equal. apply Z.leb_le. unfold next_reading in Hclock. simpl in Hclock. lia.
Qed.

Lemma timedelta_of_seconds_ok : forall n,
  -999999999 <= n / 86400 <= 999999999 ->
  timedelta_of_seconds n = inr (n * 1000000).
Proof.
  intros n [H1 H2]. unfold timedelta_of_seconds.
  apply Z.leb_le in H1. apply Z.leb_le in H2. rewrite H1, H2. reflexivity.
Qed.

Lemma timedelta_of_seconds_range : forall n d,
  timedelta_of_seconds n = inr d -> -999999999 <= n / 86400 <= 999999999.
Proof.
  unfold timedelta_of_seconds. intros n d H.
  destruct (-999999999 <=? n / 86400) eqn:E1; [|discriminate].
  destruct (n / 86400 <=? 999999999) eqn:E2; [|discriminate].
  apply Z.leb_le in E1. apply Z.leb_le in E2. lia.
Qed.

Lemma datetime_add_ok : forall t d,
  0 <= t + d <= datetime_max -> datetime_add t d = inr (t + d).
Proof.
  intros t d [H1 H2]. unfold datetime_add.
  apply Z.leb_le in H1. apply Z.leb_le in H2. rewrite H1, H2. reflexivity.
Qed.

Lemma datetime_add_range : forall t d r,
  datetime_add t d = inr r -> 0 <= t + d <= datetime_max.
Proof.
  unfold datetime_add. intros t d r H.
  destruct (0 <=? t + d) eqn:E1; [|discriminate].
  destruct (t + d <=? datetime_max) eqn:E2; [|discriminate].
  apply Z.leb_le in E1. apply Z.leb_le in E2. lia.
Qed.

(** When [get_token] returns a token and when it raises, for an answer
    whose [expires_in], if the body has one, is an integer (a number with
    a fractional part is a float, which [timedelta] accepts too and which
    is not covered here): it returns a token exactly when the answer has
    no HTTP error status and its body is a JSON object with an
    [expires_in] that [timedelta] accepts and that keeps [expires_at]
    within the range of [datetime]. *)
Theorem get_token_succeeds_iff : forall s r rest,
  inbox (world s) = Answer r :: rest ->
  (forall body expires_in,
     json r = Some body ->
     getitem body "expires_in" = inr expires_in ->
     exists n, seconds_of expires_in = Some n) ->
  (exists tok, fst (get_token repr s) = inr tok) <->
  grantable (next_reading (world s)) r.
Proof.
  intros s r rest Hin _. split.
  - intros (tok & H).
    destruct (get_token repr s) as [res s1] eqn:Hg. simpl in H. subst res.
    unfold get_token in Hg. unfold_m. simpl in Hg.
    rewrite send_default in Hg. unfold transmit in Hg. simpl in Hg.
    rewrite Hin in Hg. simpl in Hg.
    repeat (break_match_in Hg; simpl in Hg; try discriminate).
    pair_inv Hg.
    match goal with
    | Hr : raise_for_status _ = inr _ |- _ => apply raise_for_status_inr in Hr
    end.
    split; [assumption|].
    match goal with
    | Hd : timedelta_seconds ?v = inr _ |- _ =>
        pose proof Hd as Hd'; apply timedelta_seconds_inr in Hd';
        destruct Hd' as (n & Hn & ->);
        assert (Hrange : -999999999 <= n / 86400 <= 999999999)
          by (destruct v; simpl in Hd, Hn; try discriminate;
              inversion Hn; subst;
              eapply timedelta_of_seconds_range; eassumption)
    end.
    match goal with
    | Ha : datetime_add _ _ = inr _ |- _ => apply datetime_add_range in Ha
    end.
    do 3 eexists. repeat split; eauto using json_of_inr; unfold next_reading; lia.
  - intros (Herr & body & ei & n & Hj & Hei & Hn & Hrange & Hadd).
    unfold get_token. unfold_m. simpl.
    rewrite send_default. unfold transmit. simpl. rewrite Hin. simpl.
    unfold raise_for_status. rewrite Herr. unfold json_of. rewrite Hj, Hei.
    assert (Hd : timedelta_seconds ei = inr (n * 1000000)).
    { destruct ei; simpl in Hn; try discriminate; inversion Hn; subst; simpl;
        apply timedelta_of_seconds_ok; assumption. }
    rewrite Hd. unfold next_reading in Hadd. rewrite (datetime_add_ok _ _ Hadd).
    destruct body; simpl in Hei; try discriminate. simpl. eauto.
Qed.

(** No header, no request: when [get_headers] raises, [search] raises the
    same, under [silent_http_errors] too, and no GET has gone out. *)
Theorem search_without_headers : forall p b s e s1,
  get_headers repr (announced repr p s) = (inl e, s1) ->
  search repr p b s = (inl e, s1) /\
  forall q, In q (requests (new_events s s1)) -> q = token_request (self s).
Proof.
  intros p b s e s1 H. split.
  - rewrite search_eq. unfold bind. rewrite search_exchange_announced, H.
    reflexivity.
  - destruct (get_headers_trace _ _ _ H) as (evs & Htr & Hq).
    assert (Hs : self (announced repr p s) = self s)
      by (unfold announced; destruct (verbose (self s)); reflexivity).
    rewrite Hs in Hq.
    assert (Hpre : exists e0, trace (world (announced repr p s))
                     = (trace (world s) ++ e0)%list /\ requests e0 = []).
    { unfold announced. destruct (verbose (self s)); simpl.
      - eexists. split; reflexivity.
      - exists []. split; [symmetry; apply app_nil_r | reflexivity]. }
    destruct Hpre as (e0 & Hpre & Hq0).
    unfold new_events.
    rewrite (added_app _ _ (e0 ++ evs)%list)
      by (rewrite Htr, Hpre, app_assoc; reflexivity).
    rewrite requests_app, Hq0. simpl.
    intros q Hin. destruct Hq as [Hq | Hq]; rewrite Hq in Hin; simpl in Hin.
    + contradiction.
    + destruct Hin as [<- | []]. reflexivity.
Qed.

(** On a client built by [Api.__init__], after any calls: [is_expired]
    raises [AttributeError] while no token has been fetched, and with a
    token it never raises and answers whether the reading of the clock has
    reached [expires_at], the very instant included. *)
Theorem is_expired_reachable : forall cid sec v p w cs,
  let s := run repr cs {| self := __init__ cid sec v p; world := w |} in
  match token (self s) with
  | None => fst (is_expired s) = inl AttributeError
  | Some t =>
      exists e,
        getitem t "expires_at" = inr (PDatetime e) /\
        fst (is_expired s) = inr (e <=? next_reading (world s))
  end.
Proof.
  intros cid sec v p w cs s.
  assert (Hshape : token_shaped (self s)).
  { destruct (run_keeps repr cs {| self := __init__ cid sec v p; world := w |})
      as [_ At]. apply At. exact I. }
  unfold token_shaped in Hshape.
  destruct (token (self s)) as [t|] eqn:Ht.
  - destruct Hshape as (e & He). exists e. split; [exact He|].
    unfold is_expired. do 2 unfold_m. simpl. rewrite Ht, He. reflexivity.
  - unfold is_expired. do 2 unfold_m. simpl. rewrite Ht. reflexivity.
Qed.

(** A result of [search] holds every entry of the JSON body as it came,
    but for the key ["Content-Range"], which holds the three captured
    texts, each a number. *)
Theorem search_keeps_body : forall p b s r s1 out s2,
  search_exchange repr p s = (inr r, s1) ->
  http_error_msg r = None ->
  search repr p b s = (inr out, s2) ->
  exists d first last max,
    json r = Some (PDict d) /\
    (forall k, k <> "Content-Range" -> getitem out k = getitem (PDict d) k) /\
    getitem out "Content-Range"
      = inr (PDict [ ("first_index", PStr first); ("last_index", PStr last);
                     ("max_results", PStr max) ]) /\
    number first /\ number last /\ number max.
Proof.
  intros p b s r s1 out s2 Hx Herr H.
  rewrite (search_after_exchange _ _ _ _ _ _ Hx) in H.
  unfold search_outcome, raise_for_status in H. rewrite Herr in H.
  unfold_m.
  destruct (header_getitem "Content-Range" (headers r)) as [?|cr]; [discriminate|].
  destruct (Re.search cr) as [g|] eqn:Hg; [|discriminate].
  destruct (json_of r) as [?|body] eqn:Hj; [discriminate|].
  destruct body; try discriminate. pair_inv H.
  apply json_of_inr in Hj.
  assert (Hm : exists pre, Re.match_here pre = Some g).
  { clear - Hg. induction cr as [|c cr IH].
    - simpl in Hg. discriminate.
    - assert (E : Re.search (String c cr) =
                  match Re.match_here (String c cr) with
                  | Some g => Some g
                  | None => Re.search cr
                  end) by reflexivity.
      rewrite E in Hg. destruct (Re.match_here (String c cr)) eqn:M.
      + inversion Hg; subst. eauto.
      + auto. }
  destruct Hm as (pre & Hm). apply match_here_inv in Hm.
  destruct Hm as (post & _ & Ha & Hb & Hc).
  exists d, (Re.first_index g), (Re.last_index g), (Re.max_results g).
  split; [exact Hj|]. split; [|split; [|auto]].
  - intros k Hk. simpl. rewrite dict_get_set_other by exact Hk. reflexivity.
  - simpl. rewrite dict_get_set. reflexivity.
Qed.

Lemma referentiel_eq : forall n s,
  referentiel repr n s =
  bind (referentiel_exchange repr n)
       (fun r => match raise_for_status r with
                 | inl e => raise e
                 | inr _ => lift (json_of r)
                 end) s.
Proof.
  intros n s. unfold referentiel, referentiel_exchange. unfold_m. simpl.
  destruct (get_headers repr s) as [[e|h] s1]; reflexivity.
Qed.

(** [referentiel] on a client built by [Api.__init__] that holds a live
    token, when the first answer has a status other than 429 and 502:
    one GET goes out and no other request; every HTTP error status, 400
    too, raises the bare HTTP error text, whatever the body says; without
    an error status the decoded body is returned, or the decoding error
    raised when the body is not JSON; the token stays. *)
Theorem referentiel_outcome : forall cid sec v px w cs n t e a r rest,
  let a0 := __init__ cid sec v px in
  let s := run repr cs {| self := a0; world := w |} in
  let result := referentiel repr n s in
  token (self s) = Some t ->
  getitem t "expires_at" = inr (PDatetime e) ->
  getitem t "access_token" = inr a ->
  next_reading (world s) < e ->
  inbox (world s) = Answer r :: rest ->
  ~ forced r ->
  fst result =
    match http_error_msg r with
    | Some error => inl (HTTPError error)
    | None => match json r with
              | Some v => inr v
              | None => inl JSONDecodeError
              end
    end /\
  requests (new_events s (snd result))
    = [ referentiel_request a0 n [ ("Authorization", "Bearer " ++ str repr a) ] ] /\
  token (self (snd result)) = Some t.
Proof.
  intros cid sec v px w cs n t e a r rest a0 s result Ht He Ha Hlive Hin Hnf.
  destruct (run_keeps repr cs {| self := a0; world := w |})
    as [(_ & _ & _ & Hprox & Htime & Hses) _]. fold s in Hprox, Htime, Hses.
  simpl in Hprox, Htime, Hses.
  assert (Hno : forall left q, meth q = GET ->
            is_retry (session (self s)) left (meth q) r = false).
  { intros left q Hq. rewrite Hses.
    destruct (is_retry _ left (meth q) r) eqn:E; [|reflexivity].
    apply (is_retry_session cid sec v px q left r Hq) in E. contradiction. }
  set (q := referentiel_request (self s) n [ ("Authorization", "Bearer " ++ str repr a) ]).
  set (w1 := snd (transmit q (snd (today (world s))))).
  assert (Hx : referentiel_exchange repr n s = (inr r, {| self := self s; world := w1 |})).
  { unfold referentiel_exchange. unfold_m. cbv beta iota zeta.
    rewrite (get_headers_live s t e Ht He Hlive), Ha.
    cbn [self world]. unfold send.
    assert (U : urlopen (session (self s)) (total (session (self s))) 0 q
                  (snd (today (world s))) = (inr r, w1)).
    { specialize (Hno (total (session (self s))) q eq_refl).
      subst w1.
      destruct (total (session (self s))); simpl; unfold transmit; simpl;
        rewrite Hin; simpl; simpl in Hno; rewrite Hno; reflexivity. }
    match goal with |- context [urlopen _ _ _ ?q' _] => change q' with q end.
    rewrite U. reflexivity. }
  assert (Hq : q = referentiel_request a0 n [ ("Authorization", "Bearer " ++ str repr a) ]).
  { subst q. unfold referentiel_request. rewrite Hprox, Htime. reflexivity. }
  assert (Hres : result =
    (match http_error_msg r with
     | Some error => inl (HTTPError error)
     | None => match json r with
               | Some v => inr v
               | None => inl JSONDecodeError
               end
     end, {| self := self s; world := w1 |})).
  { subst result. rewrite referentiel_eq. unfold bind. rewrite Hx.
    unfold raise_for_status, json_of, raise, lift.
    destruct (http_error_msg r); [reflexivity|].
    destruct (json r); reflexivity. }
  rewrite Hres. cbn [fst snd self]. split; [reflexivity|]. split; [|exact Ht].
  rewrite <- Hq. unfold new_events. cbn [world].
  erewrite added_app; [|subst w1; unfold transmit; simpl; rewrite Hin; simpl;
                        rewrite <- app_assoc; reflexivity].
  reflexivity.
Qed.

Lemma session_traffic_settings : forall a a' mk mk' n qs,
  same_settings a a' ->
  (forall h, mk h = mk' h) ->
  session_traffic a mk n qs -> session_traffic a' mk' n qs.
Proof.
  intros a a' mk mk' n qs (S1 & S2 & S3 & S4 & S5 & S6) Hmk (pre & h & k & -> & Hpre & Hk).
  exists pre, h, k. rewrite <- Hmk. split; [reflexivity|]. split; [|exact Hk].
  destruct Hpre as [-> | ->]; [left; reflexivity | right].
  unfold token_request. rewrite S1, S2, S4, S5. reflexivity.
Qed.

(** What [search] sends, on a client built by [Api.__init__] and after
    any calls: at most one token request, before anything else, then the
    same GET at most four times: to the search endpoint, with the
    caller's parameters as they are, the timeout of 60 and the proxies
    given to the constructor. *)
Theorem search_traffic : forall cid sec v px w cs p b,
  let a0 := __init__ cid sec v px in
  let s := run repr cs {| self := a0; world := w |} in
  session_traffic a0 (search_request a0 p) 4
    (requests (new_events s (snd (search repr p b s)))).
Proof.
  intros cid sec v px w cs p b a0 s.
  destruct (run_keeps repr cs {| self := a0; world := w |}) as [Hset _].
  fold s in Hset. simpl in Hset.
  pose proof (search_sends p b s) as H.
  assert (Ht : S (total (session (self s))) = 4%nat)
    by (destruct Hset as (_ & _ & _ & _ & _ & ->); reflexivity).
  rewrite Ht in H.
  eapply session_traffic_settings; [exact Hset | | exact H].
  intros h. unfold search_request.
  destruct Hset as (_ & _ & _ & -> & -> & _). reflexivity.
Qed.

(** What [referentiel] sends, on such a client: the same, to the
    endpoint of the named reference set and without parameters. *)
Theorem referentiel_traffic : forall cid sec v px w cs n,
  let a0 := __init__ cid sec v px in
  let s := run repr cs {| self := a0; world := w |} in
  session_traffic a0 (referentiel_request a0 n) 4
    (requests (new_events s (snd (referentiel repr n s)))).
Proof.
  intros cid sec v px w cs n a0 s.
  destruct (run_keeps repr cs {| self := a0; world := w |}) as [Hset _].
  fold s in Hset. simpl in Hset.
  pose proof (referentiel_sends n s) as H.
  assert (Ht : S (total (session (self s))) = 4%nat)
    by (destruct Hset as (_ & _ & _ & _ & _ & ->); reflexivity).
  rewrite Ht in H.
  eapply session_traffic_settings; [exact Hset | | exact H].
  intros h. unfold referentiel_request.
  destruct Hset as (_ & _ & _ & -> & -> & _). reflexivity.
Qed.

End FurtherProperties.

(* ================================================================== *)
(** ** [filters_to_df] and [dt_to_str_iso] *)
(* ================================================================== *)

Lemma comprehension_inr : forall (A B : Type) (f : A -> exn + B) l ys,
  Utils.comprehension f l = inr ys <-> Forall2 (fun x y => f x = inr y) l ys.
Proof.
  intros A B f. induction l as [|x l IH]; intros ys; simpl.
  - split; [intros H; inversion H; constructor | intros H; inversion H; reflexivity].
  - split.
    + intros H. destruct (f x) as [e|y] eqn:E; [discriminate|].
      destruct (Utils.comprehension f l) as [e|ys'] eqn:E'; [discriminate|].
      inversion H; subst. constructor; [exact E | apply IH; reflexivity].
    + intros H. inversion H as [|? y ? ys' Hy Hys]; subst.
      rewrite Hy. apply IH in Hys. rewrite Hys. reflexivity.
Qed.

Lemma comprehension_app : forall (A B : Type) (f : A -> exn + B) a b,
  Utils.comprehension f (a ++ b) =
  match Utils.comprehension f a with
  | inl e => inl e
  | inr ya =>
      match Utils.comprehension f b with
      | inl e => inl e
      | inr yb => inr (ya ++ yb)%list
      end
  end.
Proof.
  intros A B f a b. induction a as [|x a IH]; simpl.
  - destruct (Utils.comprehension f b); reflexivity.
  - destruct (f x); [reflexivity|]. rewrite IH.
    destruct (Utils.comprehension f a); [reflexivity|].
    destruct (Utils.comprehension f b); reflexivity.
Qed.

Lemma extend_all_inr : forall dics l rows,
  Utils.extend_all dics l = inr rows <->
  exists rss,
    Forall2 (fun dic rs => Utils.flat_dic dic = inr rs) dics rss /\
    rows = (l ++ concat rss)%list.
Proof.
  induction dics as [|dic dics IH]; intros l rows; simpl.
  - split.
    + intros H. inversion H; subst. exists []. split; [constructor|].
      simpl. now rewrite app_nil_r.
    + intros (rss & F & ->). inversion F; subst. simpl. now rewrite app_nil_r.
  - split.
    + intros H. destruct (Utils.flat_dic dic) as [e|rs] eqn:E; [discriminate|].
      apply IH in H. destruct H as (rss & F & ->).
      exists (rs :: rss). split; [constructor; assumption|].
      simpl. now rewrite app_assoc.
    + intros (rss & F & ->). inversion F as [|? rs ? rss' Hrs F']; subst.
      rewrite Hrs. apply IH. exists rss'. split; [assumption|].
      simpl. now rewrite app_assoc.
Qed.

Lemma flat_dic_rows : forall x dic,
  Utils.one_entry x = inr dic ->
  forall rows, Utils.flat_dic dic = inr rows <-> filter_rows x rows.
Proof.
  intros x [key value] H rows. unfold Utils.one_entry in H.
  destruct (getitem x "filtre") as [e|k] eqn:Hk; [discriminate|].
  destruct (getitem x "agregation") as [e|v] eqn:Hv; [discriminate|].
  destruct (Utils.hashable k) eqn:Hh; [|discriminate].
  inversion H; subst k v; clear H.
  assert (R : forall entries,
    Utils.comprehension (Utils.record key) entries = inr rows <->
    Forall2 (fun entry row =>
               exists valeur_possible nb_resultats,
                 getitem entry "valeurPossible" = inr valeur_possible /\
                 getitem entry "nbResultats" = inr nb_resultats /\
                 row = PDict [ ("filtre", key);
                               ("valeur_possible", valeur_possible);
                               ("nb_resultats", nb_resultats) ])
            entries rows).
  { intros entries. rewrite comprehension_inr. split; intros F;
      (eapply Forall2_impl; [|exact F]); intros entry row; unfold Utils.record.
    - intros Hr. destruct (getitem entry "valeurPossible") as [|vp]; [discriminate|].
      destruct (getitem entry "nbResultats") as [|nb]; [discriminate|].
      inversion Hr. eauto.
    - intros (vp & nb & -> & -> & ->). reflexivity. }
  unfold Utils.flat_dic, filter_rows. split.
  - intros Hf. destruct (Utils.iterate value) as [e|entries] eqn:Hi; [discriminate|].
    exists key, value, entries. repeat split; auto. apply R. exact Hf.
  - intros (key' & value' & entries & Hk' & _ & Hv' & Hi & F).
    rewrite Hk in Hk'. inversion Hk'; subst key'.
    rewrite Hv in Hv'. inversion Hv'; subst value'.
    rewrite Hi. apply R. exact F.
Qed.

Lemma filter_rows_one_entry : forall x rows,
  filter_rows x rows -> has_name_and_aggregation x.
Proof.
  intros x rows (key & value & entries & Hk & Hh & Hv & _).
  exists (key, value). unfold Utils.one_entry. rewrite Hk, Hv, Hh. reflexivity.
Qed.

Lemma rows_give_entries : forall xs rss,
  Forall2 filter_rows xs rss ->
  exists dics,
    Utils.comprehension Utils.one_entry xs = inr dics /\
    Forall2 (fun dic rs => Utils.flat_dic dic = inr rs) dics rss.
Proof.
  intros xs rss F. induction F as [|x rs xs rss Hx F IH].
  - exists []. split; [reflexivity | constructor].
  - destruct IH as (dics & Hd & Hf).
    destruct (filter_rows_one_entry x rs Hx) as (dic & Hdic).
    exists (dic :: dics). simpl. rewrite Hdic, Hd. split; [reflexivity|].
    constructor; [|assumption]. eapply flat_dic_rows; eassumption.
Qed.

(** [filters_to_df] on a list of filters gets as far as [pd.DataFrame]
    exactly when every filter has a name that can be a key and an
    aggregation whose entries all have [valeurPossible] and
    [nbResultats]; the records it hands to [pd.DataFrame] are then one
    per entry, filter by filter and entry by entry in the order given,
    each with the name of its filter. *)
Theorem filters_to_df_rows : forall xs rows,
  Utils.filters_to_df (PList xs) = inr (Utils.DataFrame rows) <->
  exists rss, Forall2 filter_rows xs rss /\ rows = concat rss.
Proof.
  intros xs rows. unfold Utils.filters_to_df. simpl. split.
  - intros H.
    destruct (Utils.comprehension Utils.one_entry xs) as [e|dics] eqn:Hd; [discriminate|].
    destruct (Utils.extend_all dics []) as [e|l] eqn:He; [discriminate|].
    inversion H; subst l; clear H.
    apply extend_all_inr in He. destruct He as (rss & F & ->).
    exists rss. split; [|reflexivity].
    apply comprehension_inr in Hd. clear - Hd F.
    revert rss F. induction Hd as [|x dic xs dics Hx Hd IH]; intros rss F;
      inversion F; subst; constructor.
    + eapply flat_dic_rows; eassumption.
    + apply IH. assumption.
  - intros (rss & F & ->).
    destruct (rows_give_entries xs rss F) as (dics & Hd & Hf). rewrite Hd.
    assert (He : Utils.extend_all dics [] = inr (concat rss))
      by (apply extend_all_inr; exists rss; split; [assumption | reflexivity]).
    rewrite He. reflexivity.
Qed.

(** Two lists of filters put end to end: [pd.DataFrame] is reached
    exactly when it is for each list alone, and the records handed to it
    are then those of the first list followed by those of the second. *)
Theorem filters_to_df_app : forall xs ys rows,
  Utils.filters_to_df (PList (xs ++ ys)) = inr (Utils.DataFrame rows) <->
  exists rows_x rows_y,
    Utils.filters_to_df (PList xs) = inr (Utils.DataFrame rows_x) /\
    Utils.filters_to_df (PList ys) = inr (Utils.DataFrame rows_y) /\
    rows = (rows_x ++ rows_y)%list.
Proof.
  intros xs ys rows. unfold Utils.filters_to_df. simpl.
  rewrite comprehension_app. split.
  - intros H.
    destruct (Utils.comprehension Utils.one_entry xs) as [e|dx]; [discriminate|].
    destruct (Utils.comprehension Utils.one_entry ys) as [e|dy]; [discriminate|].
    destruct (Utils.extend_all (dx ++ dy) []) as [e|l] eqn:He; [discriminate|].
    inversion H; subst l; clear H.
    apply extend_all_inr in He. destruct He as (rss & F & ->).
    apply Forall2_app_inv_l in F. destruct F as (rx & ry & Fx & Fy & ->).
    exists (concat rx), (concat ry).
    assert (Ex : Utils.extend_all dx [] = inr (concat rx))
      by (apply extend_all_inr; eauto).
    assert (Ey : Utils.extend_all dy [] = inr (concat ry))
      by (apply extend_all_inr; eauto).
    rewrite Ex, Ey. repeat split. simpl. apply concat_app.
  - intros (rows_x & rows_y & Hx & Hy & ->).
    destruct (Utils.comprehension Utils.one_entry xs) as [e|dx]; [discriminate|].
    destruct (Utils.comprehension Utils.one_entry ys) as [e|dy]; [discriminate|].
    destruct (Utils.extend_all dx []) as [e|lx] eqn:Ex; [discriminate|].
    destruct (Utils.extend_all dy []) as [e|ly] eqn:Ey; [discriminate|].
    inversion Hx; subst lx. inversion Hy; subst ly.
    apply extend_all_inr in Ex. destruct Ex as (rx & Fx & ->).
    apply extend_all_inr in Ey. destruct Ey as (ry & Fy & ->).
    assert (E : Utils.extend_all (dx ++ dy) [] = inr (concat rx ++ concat ry)%list).
    { apply extend_all_inr. exists (rx ++ ry)%list. split.
      - apply Forall2_app; assumption.
      - simpl. symmetry. apply concat_app. }
    simpl in E. rewrite E. reflexivity.
Qed.

(** The names and aggregations of all the filters are read before any
    aggregation is opened: the first filter without a usable name or
    without an aggregation decides the error, whatever the aggregations
    of the filters before it hold. *)
Theorem filters_to_df_first_unreadable : forall xs x ys e,
  Forall has_name_and_aggregation xs ->
  Utils.one_entry x = inl e ->
  Utils.filters_to_df (PList (xs ++ x :: ys)) = inl e.
Proof.
  intros xs x ys e Hxs Hx. unfold Utils.filters_to_df. simpl.
  rewrite comprehension_app. simpl. rewrite Hx.
  assert (D : exists dics, Utils.comprehension Utils.one_entry xs = inr dics).
  { clear - Hxs. induction Hxs as [|y xs (dic & Hy) _ (dics & IH)].
    - exists []. reflexivity.
    - exists (dic :: dics). simpl. rewrite Hy, IH. reflexivity. }
  destruct D as (dics & ->). reflexivity.
Qed.

Lemma forallb_range : forall (P : Z -> bool) lo len,
  forallb P (map (fun i => lo + Z.of_nat i) (seq 0 (Z.to_nat len))) = true ->
  forall n, lo <= n < lo + len -> P n = true.
Proof.
  intros P lo len H n Hn. rewrite forallb_forall in H. apply H.
  apply in_map_iff. exists (Z.to_nat (n - lo)). split; [lia|].
  apply in_seq. lia.
Qed.

Lemma digitsb_digits : forall k s, digitsb k s = true -> digits k s.
Proof.
  unfold digitsb, digits. intros k s H. apply andb_prop in H.
  destruct H as [H1 H2]. apply Nat.eqb_eq in H1. auto.
Qed.

Lemma two_digits_shape : forall n, 0 <= n <= 99 -> digits 2 (Calendar.two_digits n).
Proof.
  intros n Hn. apply digitsb_digits.
  apply (forallb_range (fun n => digitsb 2 (Calendar.two_digits n)) 0 100);
    [vm_compute; reflexivity | lia].
Qed.

Lemma year_shape : forall y, 1000 <= y <= 9999 -> digits 4 (str_of_int y).
Proof.
  intros y Hy. apply digitsb_digits.
  apply (forallb_range (fun y => digitsb 4 (str_of_int y)) 1000 9000);
    [vm_compute; reflexivity | lia].
Qed.

Lemma month_day_range : forall leapyear n,
  0 <= n <= 364 ->
  1 <= fst (Calendar.month_day leapyear n) <= 12 /\
  1 <= snd (Calendar.month_day leapyear n) <= 31.
Proof.
  intros leapyear n Hn.
  assert (H : (let md := Calendar.month_day leapyear n in
               (1 <=? fst md) && (fst md <=? 12) && (1 <=? snd md) && (snd md <=? 31))
              = true).
  { destruct leapyear;
      [ apply (forallb_range
                 (fun n => let md := Calendar.month_day true n in
                           (1 <=? fst md) && (fst md <=? 12)
                           && (1 <=? snd md) && (snd md <=? 31)) 0 365)
      | apply (forallb_range
                 (fun n => let md := Calendar.month_day false n in
                           (1 <=? fst md) && (fst md <=? 12)
                           && (1 <=? snd md) && (snd md <=? 31)) 0 365) ];
      try (vm_compute; reflexivity); lia. }
  cbv zeta in H. repeat (apply andb_prop in H; destruct H as [H ?]).
  repeat match goal with Hb : (_ <=? _) = true |- _ => apply Z.leb_le in Hb end.
  lia.
Qed.

Lemma ord2ymd_range : forall n,
  364878 <= n <= 3652059 ->
  let '(y, m, d) := Calendar.ord2ymd n in
  1000 <= y <= 9999 /\ 1 <= m <= 12 /\ 1 <= d <= 31.
Proof.
  intros n Hn. unfold Calendar.ord2ymd.
  unfold Calendar.DI400Y, Calendar.DI100Y, Calendar.DI4Y.
  set (a := n - 1).
  set (n400 := a / 146097). set (r1 := a mod 146097).
  set (n100 := r1 / 36524). set (r2 := r1 mod 36524).
  set (n4 := r2 / 1461). set (r3 := r2 mod 1461).
  set (n1 := r3 / 365). set (r4 := r3 mod 365).
  assert (E1 : a = 146097 * n400 + r1 /\ 0 <= r1 < 146097)
    by (subst n400 r1; split; [apply Z.div_mod; lia | apply Z.mod_pos_bound; lia]).
  assert (E2 : r1 = 36524 * n100 + r2 /\ 0 <= r2 < 36524)
    by (subst n100 r2; split; [apply Z.div_mod; lia | apply Z.mod_pos_bound; lia]).
  assert (E3 : r2 = 1461 * n4 + r3 /\ 0 <= r3 < 1461)
    by (subst n4 r3; split; [apply Z.div_mod; lia | apply Z.mod_pos_bound; lia]).
  assert (E4 : r3 = 365 * n1 + r4 /\ 0 <= r4 < 365)
    by (subst n1 r4; split; [apply Z.div_mod; lia | apply Z.mod_pos_bound; lia]).
  assert (Ha : a = n - 1) by reflexivity.
  clearbody a n400 r1 n100 r2 n4 r3 n1 r4.
  destruct ((n1 =? 4) || (n100 =? 4)) eqn:Esp.
  - apply orb_prop in Esp. split; [|lia].
    destruct Esp as [E | E]; apply Z.eqb_eq in E; lia.
  - apply orb_false_elim in Esp. destruct Esp as [N1 N100].
    apply Z.eqb_neq in N1. apply Z.eqb_neq in N100.
    pose proof (month_day_range
                  ((n1 =? 3) && (negb (n4 =? 24) || (n100 =? 3))) r4 ltac:(lia)) as Hmd.
    destruct (Calendar.month_day _ r4) as [m d]. simpl in Hmd.
    split; [lia | exact Hmd].
Qed.

(** [dt_to_str_iso] on a [datetime] from the year 1000 on: the text is
    ["YYYY-MM-DDTHH:MM:SSZ"], twenty characters, every field in digits on
    its full width. *)
Theorem dt_to_str_iso_shape : forall year_text t,
  (forall y, 1000 <= y <= 9999 -> year_text y = str_of_int y) ->
  YEAR_1000 <= t <= datetime_max ->
  exists Y M D h m s,
    Utils.dt_to_str_iso year_text (PDatetime t)
      = inr (Y ++ "-" ++ M ++ "-" ++ D ++ "T" ++ h ++ ":" ++ m ++ ":" ++ s ++ "Z") /\
    digits 4 Y /\ digits 2 M /\ digits 2 D /\
    digits 2 h /\ digits 2 m /\ digits 2 s.
Proof.
  intros year_text t Hy Ht.
  unfold YEAR_1000, datetime_max, MAXORDINAL, US_PER_DAY, US_PER_SECOND in Ht.
  set (f := Calendar.fields_of t).
  exists (year_text (Calendar.year f)), (Calendar.two_digits (Calendar.month f)),
         (Calendar.two_digits (Calendar.day f)), (Calendar.two_digits (Calendar.hour f)),
         (Calendar.two_digits (Calendar.minute f)), (Calendar.two_digits (Calendar.second f)).
  split; [reflexivity|].
  assert (Hord : 364878 <= t / US_PER_DAY + 1 <= 3652059).
  { unfold US_PER_DAY, US_PER_SECOND.
    assert (364877 <= t / (86400 * 1000000)) by (apply Z.div_le_lower_bound; lia).
    assert (t / (86400 * 1000000) < 3652059) by (apply Z.div_lt_upper_bound; lia).
    lia. }
  pose proof (ord2ymd_range _ Hord) as R.
  assert (Hrest : 0 <= t mod US_PER_DAY < 86400 * 1000000)
    by (apply Z.mod_pos_bound; reflexivity).
  subst f. unfold Calendar.fields_of.
  destruct (Calendar.ord2ymd (t / US_PER_DAY + 1)) as [[y mo] d].
  destruct R as (Ry & Rm & Rd). cbn [Calendar.year Calendar.month Calendar.day
    Calendar.hour Calendar.minute Calendar.second].
  set (rest := t mod US_PER_DAY) in *.
  rewrite (Hy y Ry).
  split; [apply year_shape; exact Ry|].
  split; [apply two_digits_shape; lia|].
  split; [apply two_digits_shape; lia|].
  unfold US_PER_SECOND.
  split; [|split]; apply two_digits_shape.
  - assert (0 <= rest / (3600 * 1000000) < 24)
      by (split; [apply Z.div_pos; lia | apply Z.div_lt_upper_bound; lia]).
    lia.
  - assert (0 <= (rest / (60 * 1000000)) mod 60 < 60) by (apply Z.mod_pos_bound; lia).
    lia.
  - assert (0 <= (rest / 1000000) mod 60 < 60) by (apply Z.mod_pos_bound; lia).
    lia.
Qed.

(** [dt_to_str_iso] drops the microseconds: two instants in the same
    second get the same text, up to the last instant of that second. *)
Theorem dt_to_str_iso_truncates : forall year_text t t',
  t / US_PER_SECOND = t' / US_PER_SECOND ->
  Utils.dt_to_str_iso year_text (PDatetime t) = Utils.dt_to_str_iso year_text (PDatetime t').
Proof.
  intros year_text t t' H. unfold Utils.dt_to_str_iso. f_equal.
  assert (F : forall u,
    Calendar.strftime year_text (Calendar.fields_of u) Utils.iso_format =
    let s := u / US_PER_SECOND in
    let '(y, m, d) := Calendar.ord2ymd (s / 86400 + 1) in
    year_text y ++ "-" ++ Calendar.two_digits m ++ "-" ++ Calendar.two_digits d
      ++ "T" ++ Calendar.two_digits ((s mod 86400) / 3600)
      ++ ":" ++ Calendar.two_digits (((s mod 86400) / 60) mod 60)
      ++ ":" ++ Calendar.two_digits ((s mod 86400) mod 60) ++ "Z").
  { intros u. unfold Calendar.fields_of, US_PER_DAY, US_PER_SECOND. cbv zeta.
    assert (D1 : u / (86400 * 1000000) = u / 1000000 / 86400)
      by (rewrite Z.mul_comm; symmetry; apply Z.div_div; lia).
    assert (D2 : (u mod (86400 * 1000000)) / (3600 * 1000000)
                 = ((u / 1000000) mod 86400) / 3600).
    { Z.div_mod_to_equations. lia. }
    assert (D3 : (u mod (86400 * 1000000)) / (60 * 1000000)
                 = ((u / 1000000) mod 86400) / 60).
    { Z.div_mod_to_equations. lia. }
    assert (D4 : (u mod (86400 * 1000000)) / 1000000
                 = (u / 1000000) mod 86400).
    { Z.div_mod_to_equations. lia. }
    rewrite D1, D2, D3, D4.
    destruct (Calendar.ord2ymd (u / 1000000 / 86400 + 1)) as [[y m] d].
    reflexivity. }
  rewrite (F t), (F t'). cbv zeta. rewrite H. reflexivity.
Qed.

(* ================================================================== *)
(** ** Further worked examples *)
(* ================================================================== *)

Lemma token_is_reused_witness :
  let s1 := snd (get_token Samples.sample_repr
                   (Samples.start [Answer Samples.token_granted])) in
  fst (get_headers Samples.sample_repr s1) = inr [ ("Authorization", "Bearer abc") ] /\
  token (self (snd (get_headers Samples.sample_repr s1))) = Some Samples.cached_token /\
  requests (new_events s1 (snd (get_headers Samples.sample_repr s1))) = [].
Proof.
  refine (token_is_reused Samples.sample_repr
            (Samples.start [Answer Samples.token_granted])
            Samples.cached_token _ (Samples.t0 + 1500 * 1000000) (PStr "abc")
            eq_refl eq_refl eq_refl _).
  vm_compute. reflexivity.
Defined.

Lemma token_without_access_token_witness :
  let s1 := snd (get_token Samples.sample_repr
                   (Samples.start [Answer MoreSamples.token_without_access])) in
  let tok := PDict [ ("token_type", PStr "Bearer"); ("expires_in", PInt 1500);
                     ("expires_at", PDatetime (Samples.t0 + 1500 * 1000000)) ] in
  token (self s1) = Some tok /\
  fst (get_headers Samples.sample_repr s1) = inl (KeyError "access_token") /\
  token (self (snd (get_headers Samples.sample_repr s1))) = Some tok /\
  requests (new_events s1 (snd (get_headers Samples.sample_repr s1))) = [].
Proof.
  refine (token_without_access_token Samples.sample_repr
            (Samples.start [Answer MoreSamples.token_without_access])
            _ _ (Samples.t0 + 1500 * 1000000) eq_refl eq_refl _ _).
  - intros a H. discriminate H.
  - vm_compute. reflexivity.
Defined.

Lemma token_of_no_duration_is_stale_witness :
  let s1 := snd (get_token Samples.sample_repr
                   (Samples.start [Answer MoreSamples.token_for_no_time])) in
  token (self s1)
    = Some (PDict [ ("access_token", PStr "abc"); ("expires_in", PInt 0);
                    ("expires_at", PDatetime Samples.t0) ]) /\
  fst (is_expired s1) = inr true.
Proof.
  refine (token_of_no_duration_is_stale Samples.sample_repr
            (Samples.start [Answer MoreSamples.token_for_no_time])
            _ _ MoreSamples.token_for_no_time
            (PDict [ ("access_token", PStr "abc"); ("expires_in", PInt 0) ])
            (PInt 0) 0 eq_refl eq_refl eq_refl eq_refl eq_refl _ _).
  - lia.
  - vm_compute. intros H. discriminate H.
Defined.

Lemma get_token_succeeds_iff_witness :
  (exists tok,
     fst (get_token Samples.sample_repr
            (Samples.start [Answer Samples.token_granted])) = inr tok) <->
  grantable Samples.t0 Samples.token_granted.
Proof.
  refine (get_token_succeeds_iff Samples.sample_repr
            (Samples.start [Answer Samples.token_granted])
            Samples.token_granted [] eq_refl _).
  intros body expires_in Hbody Hexp.
  inversion Hbody; subst body. inversion Hexp; subst expires_in.
  exists 1500. reflexivity.
Defined.

(** A grant whose [expires_in] would carry [expires_at] past the last
    [datetime] is refused with [OverflowError], and nothing is cached. *)
Example get_token_overflow :
  let far := Samples.response 200 "OK" ENDPOINT_ACCESS_TOKEN []
               (Some (PDict [ ("access_token", PStr "abc");
                              ("expires_in", PInt 400000000000) ])) in
  let result := get_token Samples.sample_repr (Samples.start [Answer far]) in
  fst result = inl OverflowError /\ token (self (snd result)) = None.
Proof. split; reflexivity. Qed.

Lemma search_without_headers_witness :
  let s := Samples.start [Answer (Samples.token_refused 401 "Unauthorized")] in
  let s1 := snd (get_headers Samples.sample_repr s) in
  search Samples.sample_repr PNone true s
    = (inl (HTTPError ("401 Client Error: Unauthorized for url: "
                       ++ ENDPOINT_ACCESS_TOKEN)), s1) /\
  forall q, In q (requests (new_events s s1)) -> q = token_request Samples.new_client.
Proof.
  exact (search_without_headers Samples.sample_repr PNone true
           (Samples.start [Answer (Samples.token_refused 401 "Unauthorized")])
           _ _ eq_refl).
Defined.

Lemma search_keeps_body_witness :
  exists d first last max,
    json Samples.offers_page = Some (PDict d) /\
    (forall k, k <> "Content-Range" ->
       getitem (PDict [ ("resultats", PList []);
                        ("Content-Range",
                         PDict [ ("first_index", PStr "0"); ("last_index", PStr "19");
                                 ("max_results", PStr "134") ]) ]) k
       = getitem (PDict d) k) /\
    getitem (PDict [ ("resultats", PList []);
                     ("Content-Range",
                      PDict [ ("first_index", PStr "0"); ("last_index", PStr "19");
                              ("max_results", PStr "134") ]) ]) "Content-Range"
      = inr (PDict [ ("first_index", PStr first); ("last_index", PStr last);
                     ("max_results", PStr max) ]) /\
    number first /\ number last /\ number max.
Proof.
  exact (search_keeps_body Samples.sample_repr PNone false
           (Samples.resume [Answer Samples.offers_page])
           Samples.offers_page _ _ _ eq_refl eq_refl eq_refl).
Defined.

Lemma referentiel_outcome_witness :
  let s := run Samples.sample_repr [CallGetToken]
             (Samples.start [Answer Samples.token_granted;
                             Answer MoreSamples.themes_refused]) in
  let result := referentiel Samples.sample_repr "themes" s in
  fst result
    = inl (HTTPError ("400 Client Error: Bad Request for url: "
                      ++ REFERENTIEL_ENDPOINT ++ "/themes")) /\
  requests (new_events s (snd result))
    = [ referentiel_request Samples.new_client "themes"
          [ ("Authorization", "Bearer abc") ] ] /\
  token (self (snd result)) = Some Samples.cached_token.
Proof.
  refine (referentiel_outcome Samples.sample_repr "id" "secret" false PNone
            (Samples.world_with [Answer Samples.token_granted;
                                 Answer MoreSamples.themes_refused])
            [CallGetToken] "themes" Samples.cached_token
            (Samples.t0 + 1500 * 1000000) (PStr "abc")
            MoreSamples.themes_refused [] eq_refl eq_refl eq_refl _ eq_refl _).
  - vm_compute. reflexivity.
  - intros [H | H]; discriminate H.
Defined.

(** A frame from two records: the filter with an empty aggregation
    leaves none. *)
Example filters_to_df_two_rows :
  Utils.filters_to_df
    (PList [ MoreSamples.contract_filter; MoreSamples.experience_filter ])
  = inr (Utils.DataFrame
           [ PDict [ ("filtre", PStr "typeContrat"); ("valeur_possible", PStr "CDI");
                     ("nb_resultats", PInt 10) ];
             PDict [ ("filtre", PStr "typeContrat"); ("valeur_possible", PStr "CDD");
                     ("nb_resultats", PInt 5) ] ]).
Proof. reflexivity. Qed.

Lemma filters_to_df_first_unreadable_witness :
  Utils.filters_to_df
    (PList [ MoreSamples.broken_aggregation; MoreSamples.nameless_filter;
             MoreSamples.contract_filter ])
  = inl (KeyError "filtre").
Proof.
  refine (filters_to_df_first_unreadable [ MoreSamples.broken_aggregation ]
            MoreSamples.nameless_filter [ MoreSamples.contract_filter ]
            (KeyError "filtre") _ eq_refl).
  apply Forall_cons; [|apply Forall_nil].
  eexists. reflexivity.
Defined.

Example dt_to_str_iso_afternoon :
  Utils.dt_to_str_iso str_of_int (PDatetime MoreSamples.afternoon)
    = inr "2020-11-26T16:07:41Z" /\
  Utils.dt_to_str_iso str_of_int (PStr "2020-11-26")
    = inl (Utils.ValueError "Arg 'dt' should be of class 'datetime.datetime'").
Proof. split; reflexivity. Qed.

Lemma dt_to_str_iso_shape_witness :
  exists Y M D h m s,
    Utils.dt_to_str_iso str_of_int (PDatetime MoreSamples.afternoon)
      = inr (Y ++ "-" ++ M ++ "-" ++ D ++ "T" ++ h ++ ":" ++ m ++ ":" ++ s ++ "Z") /\
    digits 4 Y /\ digits 2 M /\ digits 2 D /\
    digits 2 h /\ digits 2 m /\ digits 2 s.
Proof.
  refine (dt_to_str_iso_shape str_of_int MoreSamples.afternoon
            (fun y _ => eq_refl) _).
  vm_compute. split; intros H; discriminate H.
Defined.

Lemma dt_to_str_iso_truncates_witness :
  Utils.dt_to_str_iso str_of_int (PDatetime MoreSamples.afternoon_and_a_bit)
  = Utils.dt_to_str_iso str_of_int (PDatetime MoreSamples.afternoon).
Proof.
  refine (dt_to_str_iso_truncates str_of_int MoreSamples.afternoon_and_a_bit
            MoreSamples.afternoon _).
  vm_compute. reflexivity.
Defined.
